(** * update-release-notes.js: changelog parsing and release-notes merging

    A shallow embedding of [update-release-notes.js] and the properties of
    its parser, its merger and its command-line run.

    JavaScript strings are sequences of UTF-16 code units; a code unit is
    an [N] below 65536.  All the string methods the script uses
    ([split], [join], [trim], [startsWith], [includes]) work code unit by
    code unit, and so do their models below. *)

From Stdlib Require Import NArith Ascii String.
From stdpp Require Import gmap strings list.

Open Scope N_scope.

(** ** JavaScript strings *)

Module JS.

Abbreviation jsstring := (list N).

(** An ASCII literal as a JavaScript string. *)
Definition lit (s : string) : jsstring :=
  N_of_ascii <$> list_ascii_of_string s.

Definition LF : N := 10.

(** [WhiteSpace] and [LineTerminator] of ECMA-262, the code units that
    [String.prototype.trim] strips. *)
Definition isWhiteSpace (c : N) : bool :=
  (9 <=? c) && (c <=? 13)
  || (c =? 32) || (c =? 160) || (c =? 5760)
  || (8192 <=? c) && (c <=? 8202)
  || (c =? 8232) || (c =? 8233) || (c =? 8239) || (c =? 8287)
  || (c =? 12288) || (c =? 65279).

Fixpoint trimStart (s : jsstring) : jsstring :=
  match s with
  | [] => []
  | c :: s' => if isWhiteSpace c then trimStart s' else s
  end.

Fixpoint trimEnd (s : jsstring) : jsstring :=
  match s with
  | [] => []
  | c :: s' =>
      match trimEnd s' with
      | [] => if isWhiteSpace c then [] else [c]
      | t => c :: t
      end
  end.

(** [s.trim()] *)
Definition trim (s : jsstring) : jsstring := trimEnd (trimStart s).

(** [s.startsWith(p)] *)
Fixpoint startsWith (s p : jsstring) {struct p} : bool :=
  match p, s with
  | [], _ => true
  | _ :: _, [] => false
  | a :: p', b :: s' => (a =? b) && startsWith s' p'
  end.

(** [s.includes(t)] *)
Fixpoint includes (s t : jsstring) : bool :=
  startsWith s t ||
  match s with
  | [] => false
  | _ :: s' => includes s' t
  end.

(** [s.split("\n")]: never the empty array. *)
Fixpoint split (s : jsstring) : list jsstring :=
  match s with
  | [] => [[]]
  | c :: s' =>
      if c =? LF then [] :: split s'
      else match split s' with
           | l :: ls => (c :: l) :: ls
           | [] => [[c]]
           end
  end.

(** [ls.join("\n")] *)
Fixpoint join (ls : list jsstring) : jsstring :=
  match ls with
  | [] => []
  | [l] => l
  | l :: ls' => l ++ LF :: join ls'
  end.

(** A document given by its lines. *)
Definition doc (ls : list string) : jsstring := join (lit <$> ls).

(** A string is falsy exactly when it is empty. *)
Definition truthy (s : jsstring) : bool :=
  match s with [] => false | _ => true end.

End JS.

Import JS.

(** ** The script *)

Definition VERSION_MARK : jsstring := Eval cbv in lit "## [".
Definition OVERVIEW_MARK : jsstring := Eval cbv in lit "## Overview".
Definition FRONTMATTER_FENCE : jsstring := Eval cbv in lit "---".

(** [line.startsWith("## [")] *)
Definition isVersionHeader (line : jsstring) : bool :=
  startsWith line VERSION_MARK.

(** The object [parseChangelog] returns. *)
Record Release := mkRelease {
  version : jsstring;
  content : jsstring;
  full : jsstring
}.

(** *** parseChangelog *)

Record ParseState := mkParseState {
  latestVersion : jsstring;
  latestContent : list jsstring;
  inLatestVersion : bool
}.

(** The [for (const line of lines)] loop; where the source says [break]
    the state is returned as it is. *)
Fixpoint parseLoop (lines : list jsstring) (st : ParseState) : ParseState :=
  match lines with
  | [] => st
  | line :: rest =>
      if startsWith line VERSION_MARK then
        if negb (inLatestVersion st) then
          parseLoop rest
            {| latestVersion := trim line;
               latestContent := latestContent st ++ [line];
               inLatestVersion := true |}
        else st
      else if inLatestVersion st then
        parseLoop rest
          {| latestVersion := latestVersion st;
             latestContent := latestContent st ++ [line];
             inLatestVersion := inLatestVersion st |}
      else parseLoop rest st
  end.

Definition parseChangelog (changelogContent : jsstring) : Release :=
  let lines := split changelogContent in
  let st := parseLoop lines
              {| latestVersion := []; latestContent := [];
                 inLatestVersion := false |} in
  let cleanContent :=
    filter (λ line, ¬ startsWith line VERSION_MARK) (latestContent st) in
  {| version := latestVersion st;
     content := trim (join cleanContent);
     full := trim (latestVersion st ++ LF :: join cleanContent) |}.

(** *** insertReleaseIntoDocs *)

Record ScanState := mkScanState {
  inFrontmatter : bool;
  overviewFound : bool;
  overviewContent : list jsstring;
  insertIndex : nat
}.

(** The [for (let i = 0; i < lines.length; i++)] loop from index [i] on,
    [rest] being [lines.slice(i)]. *)
Fixpoint scanLoop (i : nat) (rest : list jsstring) (st : ScanState)
  : ScanState :=
  match rest with
  | [] => st
  | line :: rest' =>
      if bool_decide (trim line = FRONTMATTER_FENCE)
         && negb (inFrontmatter st) then
        scanLoop (S i) rest'
          {| inFrontmatter := true; overviewFound := overviewFound st;
             overviewContent := overviewContent st;
             insertIndex := insertIndex st |}
      else if bool_decide (trim line = FRONTMATTER_FENCE)
              && inFrontmatter st then
        scanLoop (S i) rest'
          {| inFrontmatter := false; overviewFound := overviewFound st;
             overviewContent := overviewContent st;
             insertIndex := insertIndex st |}
      else if negb (inFrontmatter st) && startsWith line OVERVIEW_MARK then
        scanLoop (S i) rest'
          {| inFrontmatter := inFrontmatter st; overviewFound := true;
             overviewContent := overviewContent st;
             insertIndex := i |}
      else if overviewFound st && startsWith line VERSION_MARK then
        st
      else if overviewFound st then
        scanLoop (S i) rest'
          {| inFrontmatter := inFrontmatter st;
             overviewFound := overviewFound st;
             overviewContent := overviewContent st ++ [line];
             insertIndex := S i |}
      else scanLoop (S i) rest' st
  end.

Definition insertReleaseIntoDocs (docsContent : jsstring)
    (newRelease : Release) : jsstring :=
  let lines := split docsContent in
  let st := scanLoop 0 lines
              {| inFrontmatter := false; overviewFound := false;
                 overviewContent := []; insertIndex := 0 |} in
  let before := join (take (insertIndex st) lines) in
  let after := join (drop (insertIndex st) lines) in
  trim (before ++ LF :: LF :: full newRelease ++ LF :: LF :: after).

(** *** removeDuplicateHeaders *)

(** The loop over [lines] with its two accumulators, the [Set] of header
    texts seen so far and the lines kept so far. *)
Fixpoint dedupLoop (lines : list jsstring) (seenHeaders : gset jsstring)
    (cleanedLines : list jsstring) : list jsstring :=
  match lines with
  | [] => cleanedLines
  | line :: rest =>
      if startsWith line VERSION_MARK then
        if bool_decide (trim line ∈ seenHeaders) then
          dedupLoop rest seenHeaders cleanedLines
        else
          dedupLoop rest ({[trim line]} ∪ seenHeaders)
            (cleanedLines ++ [line])
      else dedupLoop rest seenHeaders (cleanedLines ++ [line])
  end.

Definition removeDuplicateHeaders (content : jsstring) : jsstring :=
  join (dedupLoop (split content) ∅ []).

(** ** The process: environment, file system, console *)

Record Env := mkEnv {
  env_SDK_CHANGELOG_PATH : option string;
  env_SLACK_WEBHOOK_URL : option string
}.

(** [process.env.SDK_CHANGELOG_PATH || "./CHANGELOG.md"]: an unset or
    empty variable gives the default. *)
Definition SDK_CHANGELOG_PATH (env : Env) : string :=
  match env_SDK_CHANGELOG_PATH env with
  | Some p => if decide (p = ""%string) then "./CHANGELOG.md"%string else p
  | None => "./CHANGELOG.md"%string
  end.

Definition RELEASE_NOTES_PATH : string := "./release-notes.md"%string.

(** The lines the script prints, [Log...] through [console.log] and
    [Err...] through [console.error]. *)
Inductive Event :=
| LogStart                      (* Starting release notes update... *)
| LogReading (path : string)    (* Reading SDK changelog from: path *)
| LogLatest (v : jsstring)      (* Latest version found: v *)
| LogNoExisting                 (* No existing release notes found, ... *)
| LogAlreadyExists              (* This version already exists ... *)
| LogWritten (path : string)    (* Successfully updated path *)
| LogNoWebhook                  (* No Slack webhook URL provided, ... *)
| LogSlackSent                  (* Slack notification sent successfully *)
| LogCompleted                  (* Release notes update completed ... *)
| ErrRead (path : string)       (* Error reading file path *)
| ErrWrite (path : string)      (* Error writing file path *)
| ErrParse                      (* Could not parse changelog content *)
| ErrSlack.                     (* Failed to send Slack notification *)

(** What the script can observe and change: the files, which paths refuse
    a write, whether the webhook answers, and the traces it leaves. *)
Record World := mkWorld {
  files : gmap string jsstring;
  readonly : gset string;
  webhookUp : bool;
  console : list Event;
  writes : list (string * jsstring);
  posts : list (string * jsstring)
}.

(** How a piece of the script ends: normally, by a thrown exception, or
    by [process.exit(code)], which no [catch] intercepts. *)
Inductive Completion (A : Type) :=
| Normal (a : A)
| Throw
| Exit (code : N).

Arguments Normal {A} a.
Arguments Throw {A}.
Arguments Exit {A} code.

Definition Proc (A : Type) : Type := World → Completion A * World.

Definition ret {A} (a : A) : Proc A := λ w, (Normal a, w).

Definition bind {A B} (m : Proc A) (k : A → Proc B) : Proc B :=
  λ w, match m w with
       | (Normal a, w') => k a w'
       | (Throw, w') => (Throw, w')
       | (Exit c, w') => (Exit c, w')
       end.

(** [try { m } catch (error) { handler }] *)
Definition tryCatch {A} (m handler : Proc A) : Proc A :=
  λ w, match m w with
       | (Throw, w') => handler w'
       | r => r
       end.

Declare Scope proc_scope.
Delimit Scope proc_scope with proc.
Notation "x <- m ;; k" := (bind m (λ x, k))
  (at level 100, m at next level, right associativity) : proc_scope.
Notation "m ;; k" := (bind m (λ _, k))
  (at level 100, right associativity) : proc_scope.
Open Scope proc_scope.

Definition process_exit {A} (code : N) : Proc A := λ w, (Exit code, w).

Definition consoleLog (e : Event) : Proc unit :=
  λ w, (Normal tt,
        {| files := files w; readonly := readonly w;
           webhookUp := webhookUp w; console := console w ++ [e];
           writes := writes w; posts := posts w |}).

Definition fs_readFileSync (path : string) : Proc jsstring :=
  λ w, match files w !! path with
       | Some text => (Normal text, w)
       | None => (Throw, w)
       end.

Definition fs_writeFileSync (path : string) (text : jsstring) : Proc unit :=
  λ w, if bool_decide (path ∈ readonly w) then (Throw, w)
       else (Normal tt,
             {| files := <[path := text]> (files w); readonly := readonly w;
                webhookUp := webhookUp w; console := console w;
                writes := writes w ++ [(path, text)]; posts := posts w |}).

Definition axios_post (url : string) (text : jsstring) : Proc unit :=
  λ w, if webhookUp w then
         (Normal tt,
          {| files := files w; readonly := readonly w;
             webhookUp := webhookUp w; console := console w;
             writes := writes w; posts := posts w ++ [(url, text)] |})
       else (Throw, w).

Definition readFile (filePath : string) : Proc jsstring :=
  tryCatch (fs_readFileSync filePath)
           (consoleLog (ErrRead filePath) ;; process_exit 1).

Definition writeFile (filePath : string) (text : jsstring) : Proc unit :=
  tryCatch (fs_writeFileSync filePath text ;; consoleLog (LogWritten filePath))
           (consoleLog (ErrWrite filePath) ;; process_exit 1).

Definition sendSlackNotification (env : Env) (message : jsstring)
  : Proc unit :=
  match env_SLACK_WEBHOOK_URL env with
  | None => consoleLog LogNoWebhook
  | Some url =>
      if decide (url = ""%string) then consoleLog LogNoWebhook
      else tryCatch (axios_post url message ;; consoleLog LogSlackSent)
                    (consoleLog ErrSlack)
  end.

(** The text posted to the webhook; it opens with U+1F504 as a surrogate
    pair. *)
Definition slackMessage (v : jsstring) : jsstring :=
  [55357; 56580] ++ lit " New SDK changelog update: " ++ v ++ [LF]
  ++ lit "Release notes have been updated in the docs portal." ++ [LF]
  ++ lit "Please review for additional documentation updates.".

(** The part of [updateReleaseNotes] between the read of the destination
    and the write (lines 168 to 187 of the script), as a function of the
    text read and the entry parsed: [None] where the script returns
    without writing, otherwise the text it hands to [writeFile]. *)
Definition mergeRelease (existingContent : jsstring) (newRelease : Release)
  : option jsstring :=
  if includes existingContent (version newRelease) then None
  else
    let existingContent := removeDuplicateHeaders existingContent in
    Some (if includes existingContent OVERVIEW_MARK then
            insertReleaseIntoDocs existingContent newRelease
          else
            trim (full newRelease ++ LF :: LF :: existingContent)).

Definition updateReleaseNotes (env : Env) : Proc unit :=
  consoleLog LogStart ;;
  consoleLog (LogReading (SDK_CHANGELOG_PATH env)) ;;
  changelogContent <- readFile (SDK_CHANGELOG_PATH env) ;;
  let newRelease := parseChangelog changelogContent in
  (if negb (truthy (version newRelease)) || negb (truthy (content newRelease))
   then consoleLog ErrParse ;; process_exit 1
   else ret tt) ;;
  consoleLog (LogLatest (version newRelease)) ;;
  existingContent <-
    tryCatch (readFile RELEASE_NOTES_PATH)
             (consoleLog LogNoExisting ;; ret []) ;;
  match mergeRelease existingContent newRelease with
  | None => consoleLog LogAlreadyExists
  | Some updatedContent =>
      writeFile RELEASE_NOTES_PATH updatedContent ;;
      sendSlackNotification env (slackMessage (version newRelease)) ;;
      consoleLog LogCompleted
  end.

(** ** Vocabulary of the properties *)

(** The destination document once a merge cycle is over: what it was when
    nothing is written, what is written otherwise. *)
Definition merge (d : jsstring) (e : Release) : jsstring :=
  default d (mergeRelease d e).

(** A version entry as the data model has it: the header carries no
    surrounding whitespace and [full] is header and body joined by a
    newline, trimmed. *)
Definition Release_wf (e : Release) : Prop :=
  trim (version e) = version e ∧
  ∃ body, full e = trim (version e ++ LF :: body).

Fixpoint dropUntilHeader (lines : list jsstring) : list jsstring :=
  match lines with
  | [] => []
  | l :: ls => if isVersionHeader l then lines else dropUntilHeader ls
  end.

Fixpoint takeUntilHeader (lines : list jsstring) : list jsstring :=
  match lines with
  | [] => []
  | l :: ls => if isVersionHeader l then [] else l :: takeUntilHeader ls
  end.

(** The first version section of a changelog in the words of the
    specification: the first header line and the lines after it up to,
    and excluding, the next header line. *)
Definition firstVersionSection (lines : list jsstring)
  : option (jsstring * list jsstring) :=
  match dropUntilHeader lines with
  | [] => None
  | h :: rest => Some (h, takeUntilHeader rest)
  end.

Definition hasVersionHeader (c : jsstring) : Prop :=
  ∃ l, l ∈ split c ∧ isVersionHeader l.

(** The number of lines of [s] that are literally [h]. *)
Definition lineCount (h s : jsstring) : nat :=
  length (filter (λ l, l = h) (split s)).

(** The number of version-header lines among [ls] whose trimmed text is
    [k], the text [removeDuplicateHeaders] compares. *)
Definition headerCountIn (k : jsstring) (ls : list jsstring) : nat :=
  length (filter (λ l, isVersionHeader l ∧ trim l = k) ls).

Definition headerCount (k s : jsstring) : nat := headerCountIn k (split s).

(** The number of version-header lines of a changelog. *)
Definition sectionCount (c : jsstring) : nat :=
  length (filter (λ l, Is_true (isVersionHeader l)) (split c)).

(** The text of the first version section as it stands in the changelog. *)
Definition sectionText (c : jsstring) : jsstring :=
  match firstVersionSection (split c) with
  | Some (h, body) => join (h :: body)
  | None => []
  end.

(** A line that neither opens or closes front matter nor is an Overview
    heading. *)
Definition ordinary (l : jsstring) : Prop :=
  trim l ≠ FRONTMATTER_FENCE ∧ ¬ startsWith l OVERVIEW_MARK.

Definition blank (s : jsstring) : Prop := Forall (λ c, isWhiteSpace c) s.

(** A world after some more lines on the console. *)
Definition logged (evs : list Event) (w : World) : World :=
  {| files := files w; readonly := readonly w; webhookUp := webhookUp w;
     console := console w ++ evs; writes := writes w; posts := posts w |}.

(** The console and the completion of a run. *)
Definition consoleOf (env : Env) (w : World) : list Event :=
  console (updateReleaseNotes env w).2.

Definition exitOf (env : Env) (w : World) : Completion unit :=
  (updateReleaseNotes env w).1.

(** The process stops at the parse check: the error message is the last
    thing on the console and the exit code is 1. *)
Definition abortsWithParseFailure (env : Env) (w : World) : Prop :=
  exitOf env w = Exit 1 ∧
  consoleOf env w
  = console w ++ [LogStart; LogReading (SDK_CHANGELOG_PATH env); ErrParse].

(** The process gets past the parse check: it announces the version it
    found. *)
Definition passesParse (env : Env) (w : World) : Prop :=
  ∃ v, (console w ++ [LogStart; LogReading (SDK_CHANGELOG_PATH env);
                      LogLatest v]) `prefix_of` consoleOf env w.

(** [SLACK_WEBHOOK_URL] as [sendSlackNotification] tests it: an unset or
    empty variable is no URL. *)
Definition SLACK_WEBHOOK_URL (env : Env) : option string :=
  match env_SLACK_WEBHOOK_URL env with
  | Some url => if decide (url = ""%string) then None else Some url
  | None => None
  end.

(** What a notification adds to the posts received by the webhook. *)
Definition slackPosts (env : Env) (w : World) (message : jsstring)
  : list (string * jsstring) :=
  match SLACK_WEBHOOK_URL env with
  | Some url => if webhookUp w then [(url, message)] else []
  | None => []
  end.

(** The world a run leaves behind. *)
Definition worldAfter (env : Env) (w : World) : World :=
  (updateReleaseNotes env w).2.

(** The header lines among [ls], and those of a text, by their trimmed
    texts and in order. *)
Definition headerKeysIn (ls : list jsstring) : list jsstring :=
  trim <$> filter (λ l, Is_true (isVersionHeader l)) ls.

Definition headerKeys (s : jsstring) : list jsstring :=
  headerKeysIn (split s).

(** ** Sample documents *)

Definition world0 (fs : list (string * jsstring)) : World :=
  {| files := list_to_map fs; readonly := ∅; webhookUp := true;
     console := []; writes := []; posts := [] |}.

Definition env0 : Env :=
  {| env_SDK_CHANGELOG_PATH := None; env_SLACK_WEBHOOK_URL := None |}.

(** A world with a changelog and no release notes yet. *)
Definition worldNoDestination : World :=
  world0 [("./CHANGELOG.md"%string, doc ["## [2.0.0]"; "New notes"])].

(** Changelogs. *)
Definition changelogTwoSections : jsstring :=
  doc ["# Changelog"; "## [2.0.0] - today"; ""; "- new"; "";
       "## [1.0.0]"; "- old"].
Definition changelogNew : jsstring := doc ["## [2.0.0]"; "New notes"].
Definition changelogOld : jsstring := doc ["## [1.0.0]"; "A"].
Definition changelogHeaderOnly : jsstring := doc ["## [1.0.0]"].
Definition changelogTrailingSpace : jsstring :=
  doc ["## [1.0.0] "; ""; "notes"; ""; "## [0.9.0]"; "old"].
Definition changelogOneSectionSpace : jsstring :=
  doc ["## [1.0.0] "; "notes"].

(** Release notes. *)
Definition notesOverview : jsstring :=
  doc ["## Overview"; "Some text"; "## [1.0.0]"; "Old notes"].
Definition notesOverviewBare : jsstring :=
  doc ["## Overview"; "## [1.0.0]"; "Old notes"].
Definition notesDuplicated : jsstring :=
  doc ["## [1.0.0]"; "A"; "## [1.0.0]"; "B"].
Definition notesDuplicatedSpace : jsstring :=
  doc ["## [1.0.0] "; "A"; "## [1.0.0]"; "B"; "## [1.0.0]"; "C"].
Definition notesIndented : jsstring :=
  doc [" ## [1.0.0]"; "## Overview"; "## [1.0.0]"; "A"; "## [1.0.0]"; "B"].
Definition notesMention : jsstring :=
  doc ["## [1.0.0]"; "Superseded by ## [2.0.0] next week"].

(** Worlds with a changelog and release notes, and an environment with a
    webhook. *)
Definition worldBoth (c d : jsstring) : World :=
  world0 [("./CHANGELOG.md"%string, c); ("./release-notes.md"%string, d)].
Definition worldWebhookDown (c d : jsstring) : World :=
  {| files := files (worldBoth c d); readonly := ∅;
     webhookUp := false; console := []; writes := []; posts := [] |}.
Definition envSlack : Env :=
  {| env_SDK_CHANGELOG_PATH := None;
     env_SLACK_WEBHOOK_URL := Some "https://hooks.example/services/T"%string |}.

Definition notesPlain : jsstring := doc ["## [1.0.0]"; "Old notes"].
Definition notesFrontmatter : jsstring :=
  doc ["---"; "title: Release notes"; "## Overview of the page"; "---";
       "# Release notes"; "## Overview"; "Some text"; "";
       "## [1.0.0]"; "Old notes"].
Definition notesInlineOverview : jsstring :=
  doc ["# Notes"; "See the ## Overview elsewhere"; "## [1.0.0]"; "Old notes"].

(** * Evaluation on small inputs *)

Example split_ex : split (doc ["a"; ""; "b c"]) = [lit "a"; []; lit "b c"].
Proof. reflexivity. Qed.

Example parse_ex :
  parseChangelog (doc ["# Changelog"; ""; "## [2.0.0] - today "; ""; "- new"; ""; "## [1.0.0]"; "- old"])
  = {| version := lit "## [2.0.0] - today"; content := lit "- new";
       full := doc ["## [2.0.0] - today"; ""; "- new"] |}.
Proof. vm_compute. reflexivity. Qed.

Example dedup_ex :
  removeDuplicateHeaders (doc ["## [1.0.0]"; "a"; "## [1.0.0] "; "b"])
  = doc ["## [1.0.0]"; "a"; "b"].
Proof. vm_compute. reflexivity. Qed.

Example insert_ex :
  insertReleaseIntoDocs (doc ["## Overview"; "Some text"; "## [1.0.0]"; "Old notes"])
    (parseChangelog (doc ["## [2.0.0]"; "New"]))
  = doc ["## Overview"; "Some text"; ""; "## [2.0.0]"; "New"; ""; "## [1.0.0]"; "Old notes"].
Proof. vm_compute. reflexivity. Qed.

Example run_ex :
  let w := updateReleaseNotes env0
             (world0 [("./CHANGELOG.md"%string, doc ["## [2.0.0]"; "New"]);
                      ("./release-notes.md"%string, doc ["## [1.0.0]"; "Old"])]) in
  w.1 = Normal tt ∧ writes w.2 = [("./release-notes.md"%string, doc ["## [2.0.0]"; "New"; ""; "## [1.0.0]"; "Old"])]
  ∧ console w.2 = [LogStart; LogReading "./CHANGELOG.md"; LogLatest (lit "## [2.0.0]"); LogWritten "./release-notes.md"; LogNoWebhook; LogCompleted].
Proof. vm_compute. auto. Qed.

Example run_missing_dest :
  let w := updateReleaseNotes env0
             (world0 [("./CHANGELOG.md"%string, doc ["## [2.0.0]"; "New"])]) in
  w.1 = Exit 1 ∧ writes w.2 = [] ∧ console w.2 = [LogStart; LogReading "./CHANGELOG.md"; LogLatest (lit "## [2.0.0]"); ErrRead "./release-notes.md"].
Proof. vm_compute. auto. Qed.

(** * Lemmas *)

(** ** Strings *)

Section strings.
Implicit Types (s t p : jsstring) (ls : list jsstring) (c : N).

Lemma blank_nil : blank [].
Proof. constructor. Qed.
#[local] Hint Resolve blank_nil : core.

Lemma blank_cons c s : blank (c :: s) ↔ isWhiteSpace c ∧ blank s.
Proof. unfold blank. by rewrite Forall_cons. Qed.

Lemma blank_app s t : blank (s ++ t) ↔ blank s ∧ blank t.
Proof. unfold blank. by rewrite Forall_app. Qed.

Lemma trimStart_blank s : blank s → trimStart s = [].
Proof.
  induction 1 as [|c s Hc _ IH]; [done|].
  simpl. by destruct (isWhiteSpace c).
Qed.

Lemma trimEnd_blank s : blank s → trimEnd s = [].
Proof.
  induction 1 as [|c s Hc _ IH]; [done|].
  simpl. rewrite IH. by destruct (isWhiteSpace c).
Qed.

Lemma trimEnd_nil_blank s : trimEnd s = [] → blank s.
Proof.
  induction s as [|c s IH]; [constructor|].
  simpl. destruct (trimEnd s) eqn:E; [|done].
  destruct (isWhiteSpace c) eqn:Hc; [|done].
  intros _. apply blank_cons. split; [by rewrite Hc|by apply IH].
Qed.

(** Trimming removes a blank suffix and nothing else. *)
Lemma trimEnd_split s : ∃ w, s = trimEnd s ++ w ∧ blank w.
Proof.
  induction s as [|c s (w & Hs & Hw)]; [exists []; split; [done|constructor]|].
  simpl. destruct (trimEnd s) as [|a t] eqn:E.
  - simpl in Hs. subst w. destruct (isWhiteSpace c) eqn:Hc.
    + exists (c :: s). split; [done|]. apply blank_cons. by rewrite Hc.
    + by exists s.
  - exists w. split; [|done]. by rewrite Hs at 1.
Qed.

Lemma trimStart_split s : ∃ w, s = w ++ trimStart s ∧ blank w.
Proof.
  induction s as [|c s (w & Hs & Hw)]; [exists []; split; [done|constructor]|].
  simpl. destruct (isWhiteSpace c) eqn:Hc.
  - exists (c :: w). split; [simpl; by rewrite <- Hs|].
    apply blank_cons. by rewrite Hc.
  - by exists [].
Qed.

Lemma trimEnd_app_ne s t : trimEnd t ≠ [] → trimEnd (s ++ t) = s ++ trimEnd t.
Proof.
  intros Ht. induction s as [|c s IH]; [done|].
  simpl. rewrite IH. destruct (s ++ trimEnd t) eqn:E; [|done].
  apply app_eq_nil in E as [_ ?]. done.
Qed.

Lemma trimEnd_app_blank s w : blank w → trimEnd (s ++ w) = trimEnd s.
Proof.
  intros Hw. induction s as [|c s IH]; simpl.
  - by apply trimEnd_blank.
  - by rewrite IH.
Qed.

Lemma trimStart_app_ne s t :
  trimStart s ≠ [] → trimStart (s ++ t) = trimStart s ++ t.
Proof.
  induction s as [|c s IH]; [done|].
  simpl. destruct (isWhiteSpace c); [apply IH|done].
Qed.

Lemma trimStart_app_blank w s : blank w → trimStart (w ++ s) = trimStart s.
Proof.
  induction 1 as [|c w Hc _ IH]; [done|].
  simpl. by destruct (isWhiteSpace c).
Qed.

Lemma trimStart_head c s : ¬ isWhiteSpace c → trimStart (c :: s) = c :: s.
Proof. simpl. by destruct (isWhiteSpace c). Qed.

Lemma trimEnd_idem s : trimEnd (trimEnd s) = trimEnd s.
Proof.
  induction s as [|c s IH]; [done|].
  simpl. destruct (trimEnd s) as [|a t] eqn:E.
  - destruct (isWhiteSpace c) eqn:Hc; [done|]. simpl. by rewrite Hc.
  - change (c :: a :: t) with ([c] ++ a :: t).
    rewrite trimEnd_app_ne; by rewrite IH.
Qed.

Lemma trimStart_idem s : trimStart (trimStart s) = trimStart s.
Proof.
  induction s as [|c s IH]; [done|].
  simpl. destruct (isWhiteSpace c) eqn:Hc; [done|]. simpl. by rewrite Hc.
Qed.

(** The two ends are trimmed independently. *)
Lemma trimStart_trimEnd s : trimStart (trimEnd s) = trimEnd (trimStart s).
Proof.
  induction s as [|c s IH]; [done|].
  destruct (isWhiteSpace c) eqn:Hc.
  - change (trimStart (c :: s))
      with (if isWhiteSpace c then trimStart s else c :: s).
    rewrite Hc, <- IH. simpl.
    destruct (trimEnd s); simpl; by rewrite Hc.
  - rewrite (trimStart_head c s) by by apply Is_true_false.
    simpl. destruct (trimEnd s); rewrite ?Hc; simpl; by rewrite ?Hc.
Qed.

Lemma trim_idem s : trim (trim s) = trim s.
Proof.
  unfold trim. rewrite trimStart_trimEnd, trimStart_idem.
  by rewrite trimEnd_idem.
Qed.

Lemma trim_blank s : blank s → trim s = [].
Proof. intros H. unfold trim. by rewrite trimStart_blank. Qed.

Lemma trim_nil_blank s : trim s = [] → blank s.
Proof.
  unfold trim. intros H%trimEnd_nil_blank.
  destruct (trimStart_split s) as (w & -> & Hw). by apply blank_app.
Qed.

Lemma trim_app_blank s w : blank w → trim (s ++ w) = trim s.
Proof.
  intros Hw. unfold trim. rewrite <- !trimStart_trimEnd.
  by rewrite trimEnd_app_blank.
Qed.

(** A trimmed, non-empty string begins with a code unit that is not
    whitespace. *)
Lemma trimmed_head s :
  trim s = s → s ≠ [] → ∃ c s', s = c :: s' ∧ ¬ isWhiteSpace c.
Proof.
  intros Ht Hne. destruct s as [|c s']; [done|].
  exists c, s'. split; [done|]. intros Hc.
  assert (trimStart (c :: s') = c :: s') as E.
  { rewrite <- Ht at 1. unfold trim.
    by rewrite <- trimStart_trimEnd, trimStart_idem, trimStart_trimEnd. }
  simpl in E. destruct (isWhiteSpace c); [|done].
  destruct (trimStart_split s') as (w & Hs' & _).
  apply (f_equal length) in E. rewrite Hs' in E at 2.
  simpl in E. rewrite length_app in E. lia.
Qed.

Lemma trimmed_trimStart s : trim s = s → trimStart s = s.
Proof.
  intros Ht. rewrite <- Ht at 1. unfold trim.
  by rewrite <- trimStart_trimEnd, trimStart_idem, trimStart_trimEnd.
Qed.

Lemma trimmed_trimEnd s : trim s = s → trimEnd s = s.
Proof. intros Ht. rewrite <- Ht at 1. unfold trim. by rewrite trimEnd_idem. Qed.

(** Trimming a text around a trimmed, non-empty core leaves the core in
    place. *)
Lemma trim_around a s b :
  trim s = s → s ≠ [] →
  trim (a ++ s ++ b) = trimStart a ++ s ++ trimEnd b.
Proof.
  intros Ht Hne.
  destruct (trimmed_head s Ht Hne) as (c & s' & -> & Hc).
  assert (∀ x, trimEnd ((c :: s') ++ x) = (c :: s') ++ trimEnd x) as Hend.
  { intros x. destruct (trimEnd x) as [|y x'] eqn:Ex.
    - rewrite trimEnd_app_blank by by apply trimEnd_nil_blank.
      by rewrite (trimmed_trimEnd _ Ht), app_nil_r.
    - rewrite trimEnd_app_ne; by rewrite Ex. }
  unfold trim. destruct (trimStart a) as [|y a'] eqn:Ea.
  - assert (blank a) as Ha.
    { destruct (trimStart_split a) as (w & Hw & Hb).
      rewrite Ea, app_nil_r in Hw. by subst. }
    rewrite trimStart_app_blank by done.
    rewrite <- app_comm_cons, trimStart_head by done.
    apply Hend.
  - rewrite trimStart_app_ne by by rewrite Ea.
    rewrite Ea, trimEnd_app_ne; rewrite Hend; [done|].
    by destruct (c :: s').
Qed.

Lemma startsWith_spec s p : startsWith s p ↔ ∃ t, s = p ++ t.
Proof.
  revert s. induction p as [|a p IH]; intros s; simpl.
  - split; [eauto|done].
  - destruct s as [|b s]; simpl.
    + split; [done|]. by intros (t & ?).
    + rewrite andb_True, IH. split.
      * intros (Hab & t & ->). apply Is_true_true, N.eqb_eq in Hab.
        subst. eauto.
      * intros (t & [= -> ->]). split; [|eauto].
        apply Is_true_true, N.eqb_refl.
Qed.

(** [includes] is containment as a substring. *)
Lemma includes_spec s t : includes s t ↔ ∃ a b, s = a ++ t ++ b.
Proof.
  induction s as [|c s IH]; simpl; rewrite orb_True.
  - rewrite startsWith_spec. split.
    + intros [(b & ->)|[]]. by exists [], b.
    + intros (a & b & H). left. symmetry in H.
      apply app_eq_nil in H as [-> H]. eauto.
  - rewrite startsWith_spec, IH. split.
    + intros [(b & ->)|(a & b & ->)]; [by exists [], b|by exists (c :: a), b].
    + intros ([|x a] & b & H); simpl in H; [eauto|].
      injection H as -> ->. eauto.
Qed.

Lemma includes_nil s : includes s [] = true.
Proof. apply Is_true_true, includes_spec. by exists [], s. Qed.

Lemma split_ne s : split s ≠ [].
Proof.
  destruct s as [|c s]; [done|]. simpl.
  destruct (c =? LF); [done|]. by destruct (split s).
Qed.

Lemma split_app_LF s t : split (s ++ LF :: t) = split s ++ split t.
Proof.
  induction s as [|c s IH]; [done|].
  simpl. rewrite IH. destruct (c =? LF); [done|].
  pose proof (split_ne s). by destruct (split s).
Qed.

Lemma split_cons_LF t : split (LF :: t) = [] :: split t.
Proof. done. Qed.

Lemma join_cons l ls : ls ≠ [] → join (l :: ls) = l ++ LF :: join ls.
Proof. by destruct ls. Qed.

Lemma join_split s : join (split s) = s.
Proof.
  induction s as [|c s IH]; [done|].
  simpl. pose proof (split_ne s) as Hne. destruct (c =? LF) eqn:Hc.
  - apply N.eqb_eq in Hc as ->. rewrite join_cons by done. by rewrite IH.
  - destruct (split s) as [|l ls]; [done|].
    destruct ls as [|l' ls]; simpl in *; by rewrite <- IH.
Qed.

Lemma split_no_LF s : Forall (λ l, LF ∉ l) (split s).
Proof.
  induction s as [|c s IH]; simpl.
  - constructor; [|done]. apply not_elem_of_nil.
  - destruct (c =? LF) eqn:Hc.
    + constructor; [apply not_elem_of_nil|done].
    + pose proof (split_ne s) as Hne.
      destruct (split s) as [|l ls]; [done|].
      apply Forall_cons in IH as [Hl Hls]. constructor; [|done].
      apply not_elem_of_cons. split; [|done].
      intros <-. by rewrite N.eqb_refl in Hc.
Qed.

Lemma split_one l : LF ∉ l → split l = [l].
Proof.
  induction l as [|c l IH]; [done|].
  intros [Hc Hl]%not_elem_of_cons. simpl.
  destruct (c =? LF) eqn:E; [by apply N.eqb_eq in E|].
  by rewrite IH.
Qed.

Lemma split_join ls : ls ≠ [] → Forall (λ l, LF ∉ l) ls → split (join ls) = ls.
Proof.
  induction ls as [|l ls IH]; [done|]. intros _ [Hl Hls]%Forall_cons.
  destruct ls as [|l' ls]; [by apply split_one|].
  rewrite join_cons, split_app_LF by done.
  rewrite IH by done. by rewrite split_one.
Qed.
End strings.

Arguments startsWith : simpl never.
Arguments includes : simpl never.
Arguments trim : simpl never.

(** ** parseChangelog *)

Section parsing.
Implicit Types (c s : jsstring) (lines pre body rest : list jsstring).

Lemma header_head h : isVersionHeader h → ∃ t, h = 35 :: t.
Proof. intros (t & ->)%startsWith_spec. by eexists. Qed.

Lemma header_not_blank h : isVersionHeader h → ¬ blank h.
Proof. intros (t & ->)%header_head. by intros [? _]%blank_cons. Qed.

Lemma parseLoop_inside lines st :
  inLatestVersion st = true →
  parseLoop lines st
  = {| latestVersion := latestVersion st;
       latestContent := latestContent st ++ takeUntilHeader lines;
       inLatestVersion := true |}.
Proof.
  revert st. induction lines as [|l lines IH]; intros [v acc b] Hb;
    simpl in *; subst b.
  - by rewrite app_nil_r.
  - unfold isVersionHeader. destruct (startsWith l VERSION_MARK); simpl.
    + by rewrite app_nil_r.
    + rewrite IH by done. simpl. by rewrite <- app_assoc.
Qed.

Lemma parseLoop_outside lines :
  parseLoop lines
    {| latestVersion := []; latestContent := []; inLatestVersion := false |}
  = match dropUntilHeader lines with
    | [] => {| latestVersion := []; latestContent := [];
               inLatestVersion := false |}
    | h :: rest => {| latestVersion := trim h;
                      latestContent := h :: takeUntilHeader rest;
                      inLatestVersion := true |}
    end.
Proof.
  induction lines as [|l lines IH]; [done|].
  simpl. unfold isVersionHeader.
  destruct (startsWith l VERSION_MARK) eqn:Hl; [|done].
  simpl. by rewrite parseLoop_inside.
Qed.

Lemma takeUntilHeader_no_header lines :
  Forall (λ l, ¬ isVersionHeader l) (takeUntilHeader lines).
Proof.
  induction lines as [|l lines IH]; simpl; [done|].
  destruct (isVersionHeader l) eqn:Hl; [done|].
  constructor; [by apply Is_true_false|done].
Qed.

Lemma filter_no_header lines :
  Forall (λ l, ¬ isVersionHeader l) lines →
  filter (λ line, ¬ startsWith line VERSION_MARK) lines = lines.
Proof.
  induction 1 as [|l lines Hl _ IH]; [done|].
  rewrite filter_cons_True by done. by rewrite IH.
Qed.

(** What [parseChangelog] computes, in terms of the first version
    section. *)
Lemma parseChangelog_unfold c :
  parseChangelog c
  = match firstVersionSection (split c) with
    | Some (h, body) =>
        {| version := trim h;
           content := trim (join body);
           full := trim (trim h ++ LF :: join body) |}
    | None => {| version := []; content := []; full := [] |}
    end.
Proof.
  unfold parseChangelog, firstVersionSection.
  rewrite parseLoop_outside.
  destruct (dropUntilHeader (split c)) as [|h rest] eqn:E; [done|].
  assert (isVersionHeader h) as Hh.
  { clear -E. induction (split c) as [|l ls IH]; [done|].
    simpl in E. destruct (isVersionHeader l) eqn:Hl; [|by apply IH].
    injection E as -> _. by rewrite Hl. }
  simpl. rewrite filter_cons_False by (intros Hn; by apply Hn).
  by rewrite filter_no_header by apply takeUntilHeader_no_header.
Qed.

Lemma dropUntilHeader_app pre h rest :
  Forall (λ l, ¬ isVersionHeader l) pre → isVersionHeader h →
  dropUntilHeader (pre ++ h :: rest) = h :: rest.
Proof.
  intros Hpre Hh. induction Hpre as [|l pre Hl _ IH]; simpl.
  - by rewrite (Is_true_true_1 _ Hh).
  - by rewrite (Is_true_false_1 _ Hl).
Qed.

Lemma takeUntilHeader_app body rest :
  Forall (λ l, ¬ isVersionHeader l) body →
  (rest = [] ∨ ∃ h r, rest = h :: r ∧ isVersionHeader h) →
  takeUntilHeader (body ++ rest) = body.
Proof.
  intros Hbody Hrest. induction Hbody as [|l body Hl _ IH]; simpl.
  - destruct Hrest as [->|(h & r & -> & Hh)]; [done|].
    simpl. by rewrite (Is_true_true_1 _ Hh).
  - by rewrite (Is_true_false_1 _ Hl), IH.
Qed.

Lemma firstVersionSection_app pre h body rest :
  Forall (λ l, ¬ isVersionHeader l) pre → isVersionHeader h →
  Forall (λ l, ¬ isVersionHeader l) body →
  (rest = [] ∨ ∃ h' r, rest = h' :: r ∧ isVersionHeader h') →
  firstVersionSection (pre ++ h :: body ++ rest) = Some (h, body).
Proof.
  intros. unfold firstVersionSection.
  rewrite dropUntilHeader_app by done. by rewrite takeUntilHeader_app.
Qed.

Lemma dropUntilHeader_nil lines :
  dropUntilHeader lines = [] ↔ Forall (λ l, ¬ isVersionHeader l) lines.
Proof.
  induction lines as [|l lines IH]; simpl; [done|].
  rewrite Forall_cons. destruct (isVersionHeader l) eqn:Hl.
  - split; [done|]. intros [Hn _]. by destruct Hn.
  - rewrite IH. split; [|tauto]. intros ?. split; [|done]. by intros [].
Qed.

(** The header is empty exactly when the changelog has no header line. *)
Lemma version_nil_iff c :
  version (parseChangelog c) = [] ↔ ¬ hasVersionHeader c.
Proof.
  rewrite parseChangelog_unfold. unfold firstVersionSection, hasVersionHeader.
  destruct (dropUntilHeader (split c)) as [|h rest] eqn:E; simpl.
  - apply dropUntilHeader_nil in E. split; [|done].
    intros _ (l & Hl & Hh). rewrite Forall_forall in E. by apply (E l).
  - assert (h ∈ split c ∧ isVersionHeader h) as [Hin Hh].
    { clear -E. induction (split c) as [|l ls IH]; [done|].
      simpl in E. destruct (isVersionHeader l) eqn:Hl.
      - injection E as -> _. split; [left|by rewrite Hl].
      - destruct (IH E). split; [by right|done]. }
    split; [|intros Hn; destruct Hn; eauto].
    intros Hv%trim_nil_blank. by apply header_not_blank in Hv.
Qed.
End parsing.

Arguments parseChangelog : simpl never.

(** ** removeDuplicateHeaders *)

Section dedup.
Implicit Types (d k : jsstring) (lines acc : list jsstring)
  (seen : gset jsstring).

Lemma dedupLoop_acc lines seen acc :
  dedupLoop lines seen acc = acc ++ dedupLoop lines seen [].
Proof.
  revert seen acc. induction lines as [|l lines IH]; intros seen acc; simpl.
  - by rewrite app_nil_r.
  - destruct (startsWith l VERSION_MARK); [case_bool_decide|].
    + apply IH.
    + rewrite IH, (IH _ [l]). by rewrite <- app_assoc.
    + rewrite IH, (IH _ [l]). by rewrite <- app_assoc.
Qed.

(** One step of the loop, without the accumulator. *)
Lemma dedupLoop_cons l lines seen :
  dedupLoop (l :: lines) seen []
  = if isVersionHeader l then
      if bool_decide (trim l ∈ seen) then dedupLoop lines seen []
      else l :: dedupLoop lines ({[trim l]} ∪ seen) []
    else l :: dedupLoop lines seen [].
Proof.
  unfold isVersionHeader. simpl.
  destruct (startsWith l VERSION_MARK); [case_bool_decide|];
    by rewrite ?(dedupLoop_acc _ _ [l]).
Qed.

Lemma dedupLoop_sublist lines seen :
  dedupLoop lines seen [] `sublist_of` lines.
Proof.
  revert seen. induction lines as [|l lines IH]; intros seen; [done|].
  rewrite dedupLoop_cons.
  destruct (isVersionHeader l); [case_bool_decide|].
  - by apply sublist_cons.
  - by apply sublist_skip.
  - by apply sublist_skip.
Qed.

Lemma dedupLoop_body lines seen :
  filter (λ l, ¬ isVersionHeader l) (dedupLoop lines seen [])
  = filter (λ l, ¬ isVersionHeader l) lines.
Proof.
  revert seen. induction lines as [|l lines IH]; intros seen; [done|].
  rewrite dedupLoop_cons.
  destruct (isVersionHeader l) eqn:Hl; [case_bool_decide|].
  - rewrite filter_cons_False by (rewrite Hl; simpl; tauto). apply IH.
  - rewrite !filter_cons_False by (rewrite Hl; simpl; tauto). apply IH.
  - rewrite !filter_cons_True by (rewrite Hl; simpl; tauto). by rewrite IH.
Qed.

Lemma headerCountIn_cons k l lines :
  headerCountIn k (l :: lines)
  = ((if decide (isVersionHeader l ∧ trim l = k) then 1%nat else 0%nat)
     + headerCountIn k lines)%nat.
Proof.
  unfold headerCountIn. rewrite filter_cons. by case_decide.
Qed.

Lemma headerCountIn_app k lines1 lines2 :
  headerCountIn k (lines1 ++ lines2)
  = (headerCountIn k lines1 + headerCountIn k lines2)%nat.
Proof. unfold headerCountIn. by rewrite filter_app, length_app. Qed.

Lemma headerCountIn_no_header k lines :
  Forall (λ l, ¬ isVersionHeader l) lines → headerCountIn k lines = 0%nat.
Proof.
  induction 1 as [|l lines Hl _ IH]; [done|].
  rewrite headerCountIn_cons, IH. case_decide; [tauto|done].
Qed.

(** A header text already seen does not come back. *)
Lemma dedupLoop_seen k lines seen :
  k ∈ seen → headerCountIn k (dedupLoop lines seen []) = 0%nat.
Proof.
  revert seen. induction lines as [|l lines IH]; intros seen Hk; [done|].
  rewrite dedupLoop_cons.
  destruct (isVersionHeader l) eqn:Hl; [case_bool_decide as Hin|].
  - by apply IH.
  - rewrite headerCountIn_cons, IH by set_solver.
    case_decide as Hd; [|done]. destruct Hd as [_ <-]. done.
  - rewrite headerCountIn_cons, IH by done.
    case_decide as Hd; [|done]. destruct Hd as [Hd _]. by rewrite Hl in Hd.
Qed.

(** Of the header lines with one trimmed text, the first stays and the
    others go. *)
Lemma dedupLoop_count k lines seen :
  k ∉ seen →
  headerCountIn k (dedupLoop lines seen [])
  = (headerCountIn k lines `min` 1)%nat.
Proof.
  revert seen. induction lines as [|l lines IH]; intros seen Hk; [done|].
  rewrite dedupLoop_cons.
  destruct (isVersionHeader l) eqn:Hl; [case_bool_decide as Hin|];
    rewrite !headerCountIn_cons;
    destruct (decide (isVersionHeader l ∧ trim l = k)) as [Hd|Hd].
  - destruct Hd as [_ <-]. done.
  - by apply IH.
  - destruct Hd as [_ <-]. rewrite dedupLoop_seen by set_solver. lia.
  - rewrite IH; [done|]. apply not_elem_of_union. split; [|done].
    apply not_elem_of_singleton. intros ->. apply Hd. by rewrite Hl.
  - destruct Hd as [Hd _]. by rewrite Hl in Hd.
  - by apply IH.
Qed.

Lemma dedupLoop_ne lines : lines ≠ [] → dedupLoop lines ∅ [] ≠ [].
Proof.
  destruct lines as [|l lines]; [done|]. intros _.
  rewrite dedupLoop_cons. destruct (isVersionHeader l); [|done].
  by rewrite bool_decide_eq_false_2 by set_solver.
Qed.

(** The lines of the cleaned document are the lines the loop kept. *)
Lemma split_removeDuplicateHeaders d :
  split (removeDuplicateHeaders d) = dedupLoop (split d) ∅ [].
Proof.
  unfold removeDuplicateHeaders. apply split_join.
  - apply dedupLoop_ne, split_ne.
  - apply Forall_forall. intros l Hl.
    pose proof (split_no_LF d) as Hd. rewrite Forall_forall in Hd.
    apply Hd. by eapply sublist_subseteq; [apply dedupLoop_sublist|].
Qed.

(** The first line of a document is never dropped. *)
Lemma removeDuplicateHeaders_head c d :
  c ≠ LF → ∃ t, removeDuplicateHeaders (c :: d) = c :: t.
Proof.
  intros Hc. unfold removeDuplicateHeaders. simpl.
  rewrite (proj2 (N.eqb_neq _ _) Hc).
  pose proof (split_ne d). destruct (split d) as [|l ls]; [done|].
  assert (∀ x, ∃ t, join ((c :: l) :: x) = c :: t) as Hj.
  { intros [|??]; by eexists. }
  rewrite dedupLoop_cons. destruct (isVersionHeader _); [|done].
  by rewrite bool_decide_eq_false_2 by set_solver.
Qed.
End dedup.

Arguments removeDuplicateHeaders : simpl never.
Arguments insertReleaseIntoDocs : simpl never.

(** ** Header lines of a text *)

Section headers.
Implicit Types (s t k l : jsstring) (ls : list jsstring) (c : N).

Lemma headerCount_app_LF k s t :
  headerCount k (s ++ LF :: t) = (headerCount k s + headerCount k t)%nat.
Proof. unfold headerCount. by rewrite split_app_LF, headerCountIn_app. Qed.

Lemma headerCount_nil k : headerCount k [] = 0%nat.
Proof.
  unfold headerCount. simpl. rewrite headerCountIn_cons.
  case_decide as H; [by destruct H|done].
Qed.

Lemma headerCount_cons_LF k s : headerCount k (LF :: s) = headerCount k s.
Proof.
  change (LF :: s) with ([] ++ LF :: s).
  by rewrite headerCount_app_LF, headerCount_nil.
Qed.

Lemma headerCount_join k ls :
  Forall (λ l, LF ∉ l) ls → headerCount k (join ls) = headerCountIn k ls.
Proof.
  intros Hls. destruct ls as [|l ls]; [apply headerCount_nil|].
  unfold headerCount. by rewrite split_join.
Qed.

(** The last line of a text, and the text with one more code unit. *)
Lemma split_snoc s :
  ∃ ls l, split s = ls ++ [l] ∧
    ∀ c, c ≠ LF → split (s ++ [c]) = ls ++ [l ++ [c]].
Proof.
  induction s as [|a s (ls & l & Hs & Hc)].
  - exists [], []. split; [done|]. intros c Hc. simpl.
    by rewrite (proj2 (N.eqb_neq _ _) Hc).
  - simpl. destruct (a =? LF) eqn:Ha.
    + exists ([] :: ls), l. split; [by rewrite Hs|].
      intros c Hne. by rewrite Hc.
    + rewrite Hs. destruct ls as [|l0 ls]; simpl.
      * exists [], (a :: l). split; [done|]. intros c Hne. by rewrite Hc.
      * exists ((a :: l0) :: ls), l. split; [done|].
        intros c Hne. by rewrite Hc.
Qed.

Lemma isVersionHeader_snoc l c :
  isWhiteSpace c → isVersionHeader (l ++ [c]) ↔ isVersionHeader l.
Proof.
  intros Hws. unfold isVersionHeader. rewrite !startsWith_spec. split.
  - intros (t & Ht). destruct t as [|x t _] using rev_ind.
    + rewrite app_nil_r in Ht.
      change VERSION_MARK with ([35; 35; 32] ++ [91]) in Ht.
      apply app_inj_tail in Ht as [_ ->]. done.
    + rewrite app_assoc in Ht. apply app_inj_tail in Ht as [-> _]. eauto.
  - intros (t & ->). exists (t ++ [c]). by rewrite app_assoc.
Qed.

(** Whitespace at the end of a text does not change its header lines. *)
Lemma headerCount_snoc k s c :
  isWhiteSpace c → headerCount k (s ++ [c]) = headerCount k s.
Proof.
  intros Hws. destruct (decide (c = LF)) as [->|Hne].
  - by rewrite headerCount_app_LF, headerCount_nil, Nat.add_0_r.
  - unfold headerCount. destruct (split_snoc s) as (ls & l & -> & Hc).
    rewrite Hc by done. rewrite !headerCountIn_app. f_equal.
    rewrite !headerCountIn_cons.
    rewrite (decide_ext _ (isVersionHeader l ∧ trim l = k)); [done|].
    rewrite isVersionHeader_snoc by done.
    rewrite (trim_app_blank l [c]); [done|].
    apply blank_cons. split; [done|constructor].
Qed.

Lemma headerCount_app_blank k s w :
  blank w → headerCount k (s ++ w) = headerCount k s.
Proof.
  induction w as [|c w IH] using rev_ind; intros Hw.
  - by rewrite app_nil_r.
  - apply blank_app in Hw as [Hw [Hc _]%blank_cons].
    by rewrite app_assoc, headerCount_snoc, IH.
Qed.

Lemma headerCount_trimEnd k s : headerCount k (trimEnd s) = headerCount k s.
Proof.
  destruct (trimEnd_split s) as (w & Hs & Hw).
  rewrite Hs at 2. by rewrite headerCount_app_blank.
Qed.

Lemma elem_of_join_infix l ls : l ∈ ls → ∃ a b, join ls = a ++ l ++ b.
Proof.
  induction ls as [|l0 ls IH]; [by intros ?%elem_of_nil|].
  intros [->|Hin]%elem_of_cons.
  - exists []. destruct ls; [exists []; simpl; by rewrite app_nil_r|].
    rewrite join_cons by done. by eexists.
  - destruct (IH Hin) as (a & b & Hab).
    rewrite join_cons by (intros ->; by apply elem_of_nil in Hin).
    exists (l0 ++ LF :: a), b. rewrite Hab. by rewrite <- app_assoc.
Qed.

(** A line of a text is a part of the text. *)
Lemma elem_of_split_infix l s : l ∈ split s → ∃ a b, s = a ++ l ++ b.
Proof.
  intros Hin%elem_of_join_infix. by rewrite join_split in Hin.
Qed.

Lemma trim_infix s : ∃ a b, s = a ++ trim s ++ b.
Proof.
  destruct (trimStart_split s) as (a & Ha & _).
  destruct (trimEnd_split (trimStart s)) as (b & Hb & _).
  exists a, b. unfold trim. by rewrite <- Hb.
Qed.

Lemma includes_trans s t u : includes s t → includes t u → includes s u.
Proof.
  rewrite !includes_spec. intros (a & b & ->) (a' & b' & ->).
  exists (a ++ a'), (b' ++ b). by rewrite <- !app_assoc.
Qed.

(** A header line of a text has its trimmed text in the text. *)
Lemma includes_line_trim l s : l ∈ split s → includes s (trim l).
Proof.
  intros (a & b & ->)%elem_of_split_infix.
  apply includes_spec. destruct (trim_infix l) as (a' & b' & Hl).
  exists (a ++ a'), (b' ++ b). rewrite Hl at 1. by rewrite <- !app_assoc.
Qed.

Lemma headerCountIn_pos k l ls :
  l ∈ ls → isVersionHeader l → trim l = k → (1 ≤ headerCountIn k ls)%nat.
Proof.
  intros Hin Hl Hk. unfold headerCountIn.
  assert (l ∈ filter (λ l, isVersionHeader l ∧ trim l = k) ls) as Hf
    by by apply list_elem_of_filter.
  destruct (filter _ ls); [by apply elem_of_nil in Hf|simpl; lia].
Qed.

Lemma lineCount_pos h s : (1 ≤ lineCount h s)%nat → h ∈ split s.
Proof.
  unfold lineCount. intros Hc.
  destruct (filter (λ l, l = h) (split s)) as [|x xs] eqn:E; [simpl in Hc; lia|].
  assert (x ∈ filter (λ l, l = h) (split s)) as Hx by (rewrite E; left).
  by apply list_elem_of_filter in Hx as [-> ?].
Qed.

Lemma isVersionHeader_trim l : isVersionHeader l → isVersionHeader (trim l).
Proof.
  intros Hl. destruct (header_head l Hl) as (t & Ht).
  apply startsWith_spec in Hl as (u & Hu).
  unfold trim. rewrite Ht, trimStart_head, <- Ht by (vm_compute; tauto).
  rewrite Hu. apply startsWith_spec.
  destruct (trimEnd u) as [|x u'] eqn:Eu.
  - exists []. rewrite trimEnd_app_blank by by apply trimEnd_nil_blank.
    by rewrite app_nil_r.
  - exists (trimEnd u). rewrite trimEnd_app_ne; by rewrite Eu.
Qed.

Lemma trim_no_LF l : LF ∉ l → LF ∉ trim l.
Proof.
  intros Hl Hin. apply Hl. destruct (trim_infix l) as (a & b & ->).
  apply elem_of_app. right. apply elem_of_app. by left.
Qed.
End headers.

(** ** Version entries *)

Section entries.
Implicit Types (c d s k : jsstring) (e : Release) (ls : list jsstring).

Lemma dropUntilHeader_Some ls h rest :
  dropUntilHeader ls = h :: rest →
  isVersionHeader h ∧
  ∃ pre, ls = pre ++ h :: rest ∧ Forall (λ l, ¬ isVersionHeader l) pre.
Proof.
  induction ls as [|l ls IH]; [done|]. simpl.
  destruct (isVersionHeader l) eqn:Hl.
  - intros [= -> ->]. split; [by rewrite Hl|]. by exists [].
  - intros (Hh & pre & -> & Hpre)%IH. split; [done|].
    exists (l :: pre). split; [done|].
    constructor; [by apply Is_true_false|done].
Qed.

Lemma takeUntilHeader_split ls :
  ∃ rest, ls = takeUntilHeader ls ++ rest ∧
    (rest = [] ∨ ∃ h r, rest = h :: r ∧ isVersionHeader h).
Proof.
  induction ls as [|l ls (rest & Hls & Hrest)]; [exists []; eauto|].
  simpl. destruct (isVersionHeader l) eqn:Hl.
  - exists (l :: ls). split; [done|]. right. exists l, ls.
    split; [done|]. by rewrite Hl.
  - exists rest. split; [|done]. simpl. by rewrite <- Hls.
Qed.

(** [firstVersionSection] finds the section the specification speaks
    of: nothing before its header is a header, nothing in its body is,
    and what follows starts with a header or is empty. *)
Lemma firstVersionSection_Some ls h body :
  firstVersionSection ls = Some (h, body) →
  isVersionHeader h ∧ Forall (λ l, ¬ isVersionHeader l) body ∧
  ∃ pre rest, ls = pre ++ h :: body ++ rest ∧
    Forall (λ l, ¬ isVersionHeader l) pre ∧
    (rest = [] ∨ ∃ h' r, rest = h' :: r ∧ isVersionHeader h').
Proof.
  unfold firstVersionSection.
  destruct (dropUntilHeader ls) as [|h0 rest0] eqn:E; [done|].
  intros [= -> <-]. apply dropUntilHeader_Some in E as (Hh & pre & -> & Hpre).
  split; [done|]. split; [apply takeUntilHeader_no_header|].
  destruct (takeUntilHeader_split rest0) as (rest & Hr & Hrest).
  exists pre, rest. by rewrite <- Hr.
Qed.

Lemma parseChangelog_trimmed c :
  trim (version (parseChangelog c)) = version (parseChangelog c).
Proof.
  rewrite parseChangelog_unfold.
  destruct (firstVersionSection (split c)) as [[h body]|]; [|done].
  apply trim_idem.
Qed.

(** The parser returns entries of the data model. *)
Lemma parseChangelog_wf c : Release_wf (parseChangelog c).
Proof.
  split; [apply parseChangelog_trimmed|].
  rewrite parseChangelog_unfold.
  destruct (firstVersionSection (split c)) as [[h body]|]; simpl.
  - by eexists.
  - by exists [].
Qed.

(** [full] opens with the header, is trimmed and is not empty. *)
Lemma wf_full e :
  Release_wf e → version e ≠ [] →
  trim (full e) = full e ∧ full e ≠ [] ∧ includes (full e) (version e).
Proof.
  intros [Hv (body & Hf)] Hne. rewrite Hf. split; [apply trim_idem|].
  pose proof (trim_around [] (version e) (LF :: body) Hv Hne) as H.
  simpl in H. rewrite H. split.
  - by destruct (version e).
  - apply includes_spec. by exists [], (trimEnd (LF :: body)).
Qed.

(** The header lines of a parsed entry: its header and nothing else. *)
Lemma parseChangelog_headerCount c k :
  version (parseChangelog c) ≠ [] →
  headerCount k (full (parseChangelog c))
  = if decide (version (parseChangelog c) = k) then 1%nat else 0%nat.
Proof.
  rewrite parseChangelog_unfold.
  destruct (firstVersionSection (split c)) as [[h body]|] eqn:E; [|done].
  simpl. intros Hne.
  apply firstVersionSection_Some in E
    as (Hh & Hbody & pre & rest & Hc & _ & _).
  pose proof (split_no_LF c) as HLF. rewrite Hc in HLF.
  apply Forall_app in HLF as [_ [Hh_LF [Hbody_LF _]%Forall_app]%Forall_cons].
  pose proof (isVersionHeader_trim h Hh) as Hv.
  destruct (header_head _ Hv) as (t & Ht).
  unfold trim at 1. rewrite Ht at 1. simpl app.
  rewrite trimStart_head, app_comm_cons, <- Ht by (vm_compute; tauto).
  rewrite headerCount_trimEnd, headerCount_app_LF, headerCount_join by done.
  rewrite (headerCountIn_no_header _ body), Nat.add_0_r by done.
  unfold headerCount. rewrite split_one by by apply trim_no_LF.
  rewrite headerCountIn_cons. unfold headerCountIn. simpl.
  rewrite trim_idem, Nat.add_0_r.
  apply decide_ext. tauto.
Qed.
End entries.

(** ** Merging *)

Section merging.
Implicit Types (c d s k h : jsstring) (e : Release) (x : N).

Lemma trimStart_fixed_head x s :
  trimStart (x :: s) = x :: s → ¬ isWhiteSpace x.
Proof.
  simpl. intros E Hx. rewrite (Is_true_true_1 _ Hx) in E.
  destruct (trimStart_split s) as (w & Hs & _).
  apply (f_equal length) in E. rewrite Hs in E at 2.
  simpl in E. rewrite length_app in E. lia.
Qed.

Lemma includes_nil_l s : includes [] s → s = [].
Proof.
  intros (a & b & H)%includes_spec. symmetry in H.
  apply app_eq_nil in H as [_ H]. by apply app_eq_nil in H as [H _].
Qed.

Lemma mergeRelease_present d e :
  includes d (version e) → mergeRelease d e = None.
Proof. intros H. unfold mergeRelease. by rewrite (Is_true_true_1 _ H). Qed.

Lemma merge_absent d e :
  includes d (version e) = false →
  merge d e
  = if includes (removeDuplicateHeaders d) OVERVIEW_MARK then
      insertReleaseIntoDocs (removeDuplicateHeaders d) e
    else trim (full e ++ LF :: LF :: removeDuplicateHeaders d).
Proof. intros H. unfold merge, mergeRelease. by rewrite H. Qed.

Lemma merge_present d e : includes d (version e) → merge d e = d.
Proof. intros H. unfold merge. by rewrite mergeRelease_present. Qed.

Lemma insertReleaseIntoDocs_around d e :
  trim (full e) = full e → full e ≠ [] →
  ∃ a b, insertReleaseIntoDocs d e = a ++ full e ++ b.
Proof.
  intros Ht Hne. unfold insertReleaseIntoDocs.
  set (i := insertIndex _).
  replace (join (take i (split d)) ++ LF :: LF :: full e
           ++ LF :: LF :: join (drop i (split d)))
    with ((join (take i (split d)) ++ [LF; LF]) ++ full e
          ++ LF :: LF :: join (drop i (split d)))
    by by rewrite <- app_assoc.
  rewrite trim_around by done. by eexists _, _.
Qed.

(** Whatever a merge writes contains the entry's header. *)
Lemma mergeRelease_includes d e r :
  Release_wf e → version e ≠ [] →
  mergeRelease d e = Some r → includes r (version e).
Proof.
  intros Hwf Hne. destruct (wf_full e Hwf Hne) as (Ht & Hf & Hinc).
  unfold mergeRelease. destruct (includes d (version e)); [done|].
  intros [= <-]. eapply includes_trans; [|done].
  apply includes_spec. destruct (includes _ OVERVIEW_MARK).
  - by apply insertReleaseIntoDocs_around.
  - pose proof (trim_around [] (full e)
      (LF :: LF :: removeDuplicateHeaders d) Ht Hf) as H.
    simpl in H. rewrite H. by exists [], (trimEnd (LF :: LF :: removeDuplicateHeaders d)).
Qed.

Lemma headerCount_trim_headed k x s :
  ¬ isWhiteSpace x → headerCount k (trim (x :: s)) = headerCount k (x :: s).
Proof.
  intros Hx. unfold trim. by rewrite trimStart_head, headerCount_trimEnd.
Qed.

(** The header lines of the document written when there is no Overview:
    those of the entry and those of the old document. *)
Lemma headerCount_prepend k f s :
  trim f = f → f ≠ [] →
  headerCount k (trim (f ++ LF :: LF :: s))
  = (headerCount k f + headerCount k s)%nat.
Proof.
  intros Ht Hne. destruct (trimmed_head f Ht Hne) as (x & f' & -> & Hx).
  rewrite <- app_comm_cons, headerCount_trim_headed by done.
  rewrite app_comm_cons, headerCount_app_LF. by rewrite headerCount_cons_LF.
Qed.

(** The same when the entry is spliced in after the Overview. *)
Lemma headerCount_splice k before f after :
  trim f = f → f ≠ [] →
  (before = [] ∨ ∃ x t, before = x :: t ∧ ¬ isWhiteSpace x) →
  headerCount k (trim (before ++ LF :: LF :: f ++ LF :: LF :: after))
  = (headerCount k before + headerCount k f + headerCount k after)%nat.
Proof.
  intros Ht Hne [->|(x & t & -> & Hx)].
  - unfold trim at 1. simpl app.
    change (trimStart (LF :: LF :: f ++ LF :: LF :: after))
      with (trimStart (f ++ LF :: LF :: after)).
    fold (trim (f ++ LF :: LF :: after)).
    by rewrite headerCount_prepend, headerCount_nil.
  - rewrite <- app_comm_cons, headerCount_trim_headed by done.
    rewrite app_comm_cons, headerCount_app_LF, headerCount_cons_LF.
    rewrite headerCount_app_LF, headerCount_cons_LF. lia.
Qed.

Lemma headerCount_removeDuplicateHeaders k d :
  headerCount k (removeDuplicateHeaders d) = (headerCount k d `min` 1)%nat.
Proof.
  unfold headerCount at 1. rewrite split_removeDuplicateHeaders.
  by apply dedupLoop_count.
Qed.

(** The header lines of the document a merge cycle writes. *)
Lemma headerCount_merge k d c :
  trimStart d = d → includes d (version (parseChangelog c)) = false →
  headerCount k (merge d (parseChangelog c))
  = ((if decide (version (parseChangelog c) = k) then 1 else 0)
     + headerCount k d `min` 1)%nat.
Proof.
  intros Hd Hinc.
  assert (version (parseChangelog c) ≠ []) as Hne.
  { intros E. by rewrite E, includes_nil in Hinc. }
  destruct (wf_full _ (parseChangelog_wf c) Hne) as (Ht & Hf & _).
  rewrite merge_absent by done.
  rewrite <- parseChangelog_headerCount by done.
  rewrite <- headerCount_removeDuplicateHeaders.
  destruct (includes _ OVERVIEW_MARK); [|by apply headerCount_prepend].
  unfold insertReleaseIntoDocs. set (i := insertIndex _).
  rewrite headerCount_splice; [|done|done|].
  - pose proof (split_no_LF (removeDuplicateHeaders d)) as HLF.
    rewrite !headerCount_join
      by (eapply Forall_take || eapply Forall_drop; done).
    rewrite (Nat.add_comm (headerCountIn _ _)), <- Nat.add_assoc.
    rewrite <- headerCountIn_app, take_drop. done.
  - destruct d as [|x d].
    { subst i. change (removeDuplicateHeaders []) with (@nil N).
      left. by destruct (insertIndex _) as [|[|?]]. }
    pose proof (trimStart_fixed_head _ _ Hd) as Hx.
    assert (x ≠ LF) as HLF by (intros ->; by apply Hx).
    destruct (removeDuplicateHeaders_head x d HLF) as (t & ->).
    destruct i as [|i]; [by left|right].
    simpl. rewrite (proj2 (N.eqb_neq _ _) HLF).
    pose proof (split_ne t). destruct (split t) as [|l ls]; [done|].
    simpl. destruct (take i ls); by eexists _, _.
Qed.
End merging.

(** ** Placement after the Overview *)

Section placement.
Implicit Types (d s : jsstring) (e : Release) (st : ScanState)
  (pre content rest : list jsstring).

Lemma trim_hash_head t : ∃ u, trim (35 :: t) = 35 :: u.
Proof.
  unfold trim. rewrite trimStart_head by (vm_compute; tauto).
  simpl. destruct (trimEnd t); by eexists.
Qed.

Lemma overview_not_fence l : startsWith l OVERVIEW_MARK → trim l ≠ FRONTMATTER_FENCE.
Proof.
  intros (t & ->)%startsWith_spec.
  destruct (trim_hash_head (tail OVERVIEW_MARK ++ t)) as (u & Hu).
  simpl in Hu. simpl. by rewrite Hu.
Qed.

Lemma header_ordinary h : isVersionHeader h → ordinary h.
Proof.
  intros (t & ->)%startsWith_spec. split.
  - destruct (trim_hash_head (tail VERSION_MARK ++ t)) as (u & Hu).
    simpl in Hu. simpl. by rewrite Hu.
  - by intros (u & ?)%startsWith_spec.
Qed.

(** Before the Overview heading nothing is recorded. *)
Lemma scanLoop_before i pre rest st :
  inFrontmatter st = false → overviewFound st = false →
  Forall ordinary pre →
  scanLoop i (pre ++ rest) st = scanLoop (i + length pre) rest st.
Proof.
  intros Hf Ho Hpre. revert i.
  induction Hpre as [|l pre [Hl1 Hl2] _ IH]; intros i; simpl.
  - by rewrite Nat.add_0_r.
  - rewrite bool_decide_eq_false_2 by done.
    rewrite Hf, Ho, (Is_true_false_1 _ Hl2). simpl.
    rewrite IH. f_equal. lia.
Qed.

(** After the heading every line that is not a version header moves the
    insertion point past itself; the first version header stops the
    scan. *)
Lemma scanLoop_after i content rest st :
  inFrontmatter st = false → overviewFound st = true →
  Forall (λ l, ordinary l ∧ ¬ isVersionHeader l) content →
  (rest = [] ∨ ∃ h r, rest = h :: r ∧ isVersionHeader h) →
  insertIndex (scanLoop i (content ++ rest) st)
  = match content with
    | [] => insertIndex st
    | _ => (i + length content)%nat
    end.
Proof.
  intros Hf Ho Hcontent Hrest. revert i st Hf Ho.
  induction Hcontent as [|l content [[Hl1 Hl2] Hl3] _ IH];
    intros i st Hf Ho; simpl.
  - destruct Hrest as [->|(h & r & -> & Hh)]; [done|].
    destruct (header_ordinary h Hh) as [Hh1 Hh2]. simpl.
    rewrite bool_decide_eq_false_2 by done.
    rewrite Hf, Ho, (Is_true_false_1 _ Hh2). simpl.
    by rewrite (Is_true_true_1 (startsWith h VERSION_MARK) Hh).
  - rewrite bool_decide_eq_false_2 by done.
    rewrite Hf, Ho, (Is_true_false_1 _ Hl2). simpl.
    rewrite (Is_true_false_1 (startsWith l VERSION_MARK) Hl3).
    rewrite IH by done.
    destruct content; simpl; lia.
Qed.

(** Where [insertReleaseIntoDocs] puts the entry in a document without
    front matter whose lines are [pre], the Overview heading [ov], the
    lines [content] of the Overview and [rest], which is empty or starts
    with a version header.  With Overview content the entry goes between
    that content and [rest]; without any, it goes before the heading. *)
Lemma insertReleaseIntoDocs_overview d e pre ov content rest :
  split d = pre ++ ov :: content ++ rest →
  Forall ordinary pre → startsWith ov OVERVIEW_MARK →
  Forall (λ l, ordinary l ∧ ¬ isVersionHeader l) content →
  (rest = [] ∨ ∃ h r, rest = h :: r ∧ isVersionHeader h) →
  insertReleaseIntoDocs d e
  = match content with
    | [] => trim (join pre ++ LF :: LF :: full e
                  ++ LF :: LF :: join (ov :: rest))
    | _ => trim (join (pre ++ ov :: content) ++ LF :: LF :: full e
                 ++ LF :: LF :: join rest)
    end.
Proof.
  intros Hd Hpre Hov Hcontent Hrest. unfold insertReleaseIntoDocs.
  rewrite Hd, scanLoop_before by done. simpl.
  rewrite bool_decide_eq_false_2 by by apply overview_not_fence.
  simpl. rewrite (Is_true_true_1 _ Hov), scanLoop_after by done. simpl.
  destruct content as [|l content].
  - by rewrite take_app_length, drop_app_length.
  - assert (pre ++ ov :: (l :: content) ++ rest
            = (pre ++ ov :: l :: content) ++ rest) as ->
      by by rewrite <- app_assoc.
    assert (S (length pre + length (l :: content))
            = length (pre ++ ov :: l :: content)) as ->
      by (rewrite length_app; simpl; lia).
    by rewrite take_app_length, drop_app_length.
Qed.
End placement.

(** ** The run *)

Ltac unfold_run :=
  unfold updateReleaseNotes, writeFile, sendSlackNotification, readFile,
    tryCatch, bind, fs_readFileSync, fs_writeFileSync, axios_post, consoleLog,
    process_exit, ret, logged; simpl.

#[local] Opaque parseChangelog mergeRelease.

Section run.
Variable env : Env.
Implicit Types (w : World) (c d : jsstring).

Lemma truthy_nil s : truthy s = false ↔ s = [].
Proof. by destruct s. Qed.

Lemma run_source_missing w :
  files w !! SDK_CHANGELOG_PATH env = None →
  updateReleaseNotes env w
  = (Exit 1, logged [LogStart; LogReading (SDK_CHANGELOG_PATH env);
                     ErrRead (SDK_CHANGELOG_PATH env)] w).
Proof.
  intros Hsrc. unfold_run. rewrite Hsrc. simpl. by rewrite <- !app_assoc.
Qed.

Lemma run_parse_failure w c :
  files w !! SDK_CHANGELOG_PATH env = Some c →
  version (parseChangelog c) = [] ∨ content (parseChangelog c) = [] →
  updateReleaseNotes env w
  = (Exit 1, logged [LogStart; LogReading (SDK_CHANGELOG_PATH env);
                     ErrParse] w).
Proof.
  intros Hsrc Hbad. unfold_run. rewrite Hsrc. simpl.
  assert (negb (truthy (version (parseChangelog c)))
          || negb (truthy (content (parseChangelog c))) = true) as ->.
  { destruct Hbad as [-> | ->]; [done|]. apply orb_true_r. }
  simpl. by rewrite <- !app_assoc.
Qed.

Lemma parse_guard_passes c :
  version (parseChangelog c) ≠ [] → content (parseChangelog c) ≠ [] →
  negb (truthy (version (parseChangelog c)))
  || negb (truthy (content (parseChangelog c))) = false.
Proof.
  intros Hv Hc.
  destruct (version (parseChangelog c)); [done|].
  by destruct (content (parseChangelog c)).
Qed.

(** [readFile] handles the failure of the read itself, by leaving the
    process: it never throws, and a [try] around it never reaches its
    [catch]. *)
Lemma readFile_never_throws path w : (readFile path w).1 ≠ Throw.
Proof.
  unfold readFile, tryCatch, fs_readFileSync, bind, consoleLog, process_exit.
  by destruct (files w !! path).
Qed.

Lemma tryCatch_readFile path (handler : Proc jsstring) w :
  tryCatch (readFile path) handler w = readFile path w.
Proof.
  pose proof (readFile_never_throws path w) as H. unfold tryCatch.
  by destruct (readFile path w) as [[| |] ?].
Qed.

Lemma run_destination_missing w c :
  files w !! SDK_CHANGELOG_PATH env = Some c →
  version (parseChangelog c) ≠ [] → content (parseChangelog c) ≠ [] →
  files w !! RELEASE_NOTES_PATH = None →
  updateReleaseNotes env w
  = (Exit 1, logged [LogStart; LogReading (SDK_CHANGELOG_PATH env);
                     LogLatest (version (parseChangelog c));
                     ErrRead RELEASE_NOTES_PATH] w).
Proof.
  intros Hsrc Hv Hc Hdst. unfold_run. rewrite Hsrc. simpl.
  rewrite parse_guard_passes by done. simpl.
  rewrite Hdst. simpl. by rewrite <- !app_assoc.
Qed.

Lemma run_already_present w c d :
  files w !! SDK_CHANGELOG_PATH env = Some c →
  version (parseChangelog c) ≠ [] → content (parseChangelog c) ≠ [] →
  files w !! RELEASE_NOTES_PATH = Some d →
  mergeRelease d (parseChangelog c) = None →
  updateReleaseNotes env w
  = (Normal tt, logged [LogStart; LogReading (SDK_CHANGELOG_PATH env);
                        LogLatest (version (parseChangelog c));
                        LogAlreadyExists] w).
Proof.
  intros Hsrc Hv Hc Hdst Hm. unfold_run. rewrite Hsrc. simpl.
  rewrite parse_guard_passes by done. simpl.
  rewrite Hdst. simpl. rewrite Hm. simpl. by rewrite <- !app_assoc.
Qed.

Lemma run_write_failure w c d u :
  files w !! SDK_CHANGELOG_PATH env = Some c →
  version (parseChangelog c) ≠ [] → content (parseChangelog c) ≠ [] →
  files w !! RELEASE_NOTES_PATH = Some d →
  mergeRelease d (parseChangelog c) = Some u →
  RELEASE_NOTES_PATH ∈ readonly w →
  updateReleaseNotes env w
  = (Exit 1, logged [LogStart; LogReading (SDK_CHANGELOG_PATH env);
                     LogLatest (version (parseChangelog c));
                     ErrWrite RELEASE_NOTES_PATH] w).
Proof.
  intros Hsrc Hv Hc Hdst Hm Hro. unfold_run. rewrite Hsrc. simpl.
  rewrite parse_guard_passes by done. simpl.
  rewrite Hdst. simpl. rewrite Hm. simpl.
  rewrite bool_decide_eq_true_2 by done. simpl. by rewrite <- !app_assoc.
Qed.

(** A run that writes: the merged text goes to the destination, once,
    and the process ends normally whatever the webhook does. *)
Lemma run_written w c d u :
  files w !! SDK_CHANGELOG_PATH env = Some c →
  version (parseChangelog c) ≠ [] → content (parseChangelog c) ≠ [] →
  files w !! RELEASE_NOTES_PATH = Some d →
  mergeRelease d (parseChangelog c) = Some u →
  RELEASE_NOTES_PATH ∉ readonly w →
  ∃ evs ps,
    updateReleaseNotes env w
    = (Normal tt,
       {| files := <[RELEASE_NOTES_PATH := u]> (files w);
          readonly := readonly w; webhookUp := webhookUp w;
          console := console w
            ++ [LogStart; LogReading (SDK_CHANGELOG_PATH env);
                LogLatest (version (parseChangelog c));
                LogWritten RELEASE_NOTES_PATH] ++ evs;
          writes := writes w ++ [(RELEASE_NOTES_PATH, u)];
          posts := posts w ++ ps |}).
Proof.
  intros Hsrc Hv Hc Hdst Hm Hro. unfold_run. rewrite Hsrc. simpl.
  rewrite parse_guard_passes by done. simpl.
  rewrite Hdst. simpl. rewrite Hm. simpl.
  rewrite bool_decide_eq_false_2 by done. simpl.
  destruct (env_SLACK_WEBHOOK_URL env) as [url|]; [case_decide|]; simpl.
  - exists [LogNoWebhook; LogCompleted], [].
    by rewrite <- !app_assoc, app_nil_r.
  - destruct (webhookUp w); simpl.
    + exists [LogSlackSent; LogCompleted], [(url, slackMessage (version (parseChangelog c)))].
      by rewrite <- !app_assoc.
    + exists [ErrSlack; LogCompleted], [].
      by rewrite <- !app_assoc, app_nil_r.
  - exists [LogNoWebhook; LogCompleted], [].
    by rewrite <- !app_assoc, app_nil_r.
Qed.

(** Once the changelog is read and the entry is complete, the version
    found is announced. *)
Lemma run_passes_parse w c :
  files w !! SDK_CHANGELOG_PATH env = Some c →
  version (parseChangelog c) ≠ [] → content (parseChangelog c) ≠ [] →
  passesParse env w.
Proof.
  intros Hsrc Hv Hc. exists (version (parseChangelog c)).
  unfold consoleOf.
  destruct (files w !! RELEASE_NOTES_PATH) as [d|] eqn:Hdst.
  - destruct (mergeRelease d (parseChangelog c)) as [u|] eqn:Hm.
    + destruct (decide (RELEASE_NOTES_PATH ∈ readonly w)) as [Hro|Hro].
      * rewrite (run_write_failure w c d u) by done. simpl.
        apply prefix_app, prefix_cons, prefix_cons, prefix_cons, prefix_nil.
      * destruct (run_written w c d u) as (evs & ps & ->); [done..|]. simpl.
        apply prefix_app, prefix_cons, prefix_cons, prefix_cons, prefix_nil.
    + rewrite (run_already_present w c d) by done. simpl.
      apply prefix_app, prefix_cons, prefix_cons, prefix_cons, prefix_nil.
  - rewrite (run_destination_missing w c) by done. simpl.
    apply prefix_app, prefix_cons, prefix_cons, prefix_cons, prefix_nil.
Qed.
End run.

#[local] Transparent parseChangelog mergeRelease.

(** * The properties of the specification *)

(** ** Parsing *)

(** C8, as the script has it.  For every changelog, [parseChangelog]
    returns the first version section and nothing of a later one: when
    the lines are [pre], without a header line, then the header line [h],
    then [body], without a header line, then [rest], empty or starting
    with the next header line, the header returned is [h] trimmed, the
    content is [body] joined by newlines and trimmed, and [full] is the
    two joined by a newline and trimmed; [rest] plays no part. *)
Theorem parseChangelog_first_section c pre h body rest :
  split c = pre ++ h :: body ++ rest →
  Forall (λ l, ¬ isVersionHeader l) pre →
  isVersionHeader h →
  Forall (λ l, ¬ isVersionHeader l) body →
  (rest = [] ∨ ∃ h' r, rest = h' :: r ∧ isVersionHeader h') →
  parseChangelog c
  = {| version := trim h;
       content := trim (join body);
       full := trim (trim h ++ LF :: join body) |}.
Proof.
  intros Hc Hpre Hh Hbody Hrest.
  rewrite parseChangelog_unfold, Hc.
  by rewrite firstVersionSection_app.
Qed.

Lemma parseChangelog_first_section_witness :
  split changelogTwoSections
  = [lit "# Changelog"] ++ lit "## [2.0.0] - today"
      :: [[]; lit "- new"; []] ++ [lit "## [1.0.0]"; lit "- old"]
  ∧ parseChangelog changelogTwoSections
    = {| version := lit "## [2.0.0] - today";
         content := lit "- new";
         full := doc ["## [2.0.0] - today"; ""; "- new"] |}.
Proof.
  split; [reflexivity|].
  apply (parseChangelog_first_section changelogTwoSections
           [lit "# Changelog"] (lit "## [2.0.0] - today")
           [[]; lit "- new"; []] [lit "## [1.0.0]"; lit "- old"]).
  - reflexivity.
  - repeat constructor; vm_compute; tauto.
  - vm_compute. exact I.
  - repeat constructor; vm_compute; tauto.
  - right. exists (lit "## [1.0.0]"), [lit "- old"].
    split; [reflexivity|vm_compute; exact I].
Defined.

(** C8, as it is worded: the header returned is not the header line
    itself when that line ends in whitespace, and the content is not the
    span of lines itself when the span begins or ends with blank lines. *)
Lemma parseChangelog_trims_section :
  split changelogTrailingSpace
  = [] ++ lit "## [1.0.0] " :: [[]; lit "notes"; []]
       ++ [lit "## [0.9.0]"; lit "old"]
  ∧ version (parseChangelog changelogTrailingSpace) = lit "## [1.0.0]"
  ∧ version (parseChangelog changelogTrailingSpace) ≠ lit "## [1.0.0] "
  ∧ content (parseChangelog changelogTrailingSpace) = lit "notes"
  ∧ content (parseChangelog changelogTrailingSpace)
    ≠ join [[]; lit "notes"; []].
Proof. vm_compute. repeat split; discriminate. Qed.

(** C6, as the script has it.  With a readable changelog the process
    stops at the parse check exactly when the changelog has no header
    line or the content of its first section, trimmed, is empty; with a
    header line and such content it goes on and announces the version. *)
Theorem parse_failure_iff env w c :
  files w !! SDK_CHANGELOG_PATH env = Some c →
  (abortsWithParseFailure env w
   ↔ ¬ hasVersionHeader c ∨ content (parseChangelog c) = [])
  ∧ (hasVersionHeader c → content (parseChangelog c) ≠ [] →
     passesParse env w ∧ ¬ abortsWithParseFailure env w).
Proof.
  intros Hsrc.
  assert (version (parseChangelog c) ≠ [] → content (parseChangelog c) ≠ [] →
          passesParse env w ∧ ¬ abortsWithParseFailure env w) as Hpass.
  { intros Hv Hc. pose proof (run_passes_parse env w c Hsrc Hv Hc) as Hp.
    split; [done|]. intros [_ Hcon]. destruct Hp as (v & Hp).
    rewrite Hcon in Hp. apply prefix_app_inv in Hp.
    do 2 apply prefix_cons_inv_2 in Hp. by apply prefix_cons_inv_1 in Hp. }
  split.
  - rewrite <- version_nil_iff. split.
    + intros Habort.
      destruct (decide (version (parseChangelog c) = [])); [by left|].
      destruct (decide (content (parseChangelog c) = [])); [by right|].
      by destruct (Hpass n n0) as [_ Hn].
    + intros Hbad. unfold abortsWithParseFailure, exitOf, consoleOf.
      by rewrite (run_parse_failure env w c Hsrc Hbad).
  - intros Hh Hc. apply Hpass; [|done]. by intros ?%version_nil_iff.
Qed.

Lemma parse_failure_iff_witness :
  files (world0 [("./CHANGELOG.md"%string, changelogNew)])
    !! SDK_CHANGELOG_PATH env0 = Some changelogNew
  ∧ (abortsWithParseFailure env0
       (world0 [("./CHANGELOG.md"%string, changelogNew)])
     ↔ ¬ hasVersionHeader changelogNew
       ∨ content (parseChangelog changelogNew) = []).
Proof.
  split; [reflexivity|].
  apply (parse_failure_iff env0
           (world0 [("./CHANGELOG.md"%string, changelogNew)]) changelogNew).
  reflexivity.
Defined.

(** C6, as it is worded: a changelog with a header line and nothing
    under it stops the process at the parse check all the same. *)
Lemma header_without_body_aborts :
  hasVersionHeader changelogHeaderOnly
  ∧ abortsWithParseFailure env0
      (world0 [("./CHANGELOG.md"%string, changelogHeaderOnly);
               ("./release-notes.md"%string, [])]).
Proof.
  split.
  - exists (lit "## [1.0.0]"). split; [left|vm_compute; exact I].
  - split; vm_compute; reflexivity.
Qed.

(** ** Merging *)

(** C2.  For every destination [d] and every version entry [e] of the
    data model with a non-empty header, merging [e] twice gives what
    merging it once gives. *)
Theorem merge_idempotent d e :
  Release_wf e → version e ≠ [] → merge (merge d e) e = merge d e.
Proof.
  intros Hwf Hne. unfold merge at 2 3.
  destruct (mergeRelease d e) as [r|] eqn:Hm; simpl.
  - apply merge_present. by eapply mergeRelease_includes.
  - unfold merge. by rewrite Hm.
Qed.

Lemma merge_idempotent_witness :
  Release_wf (parseChangelog changelogNew)
  ∧ version (parseChangelog changelogNew) ≠ []
  ∧ merge (merge notesOverview (parseChangelog changelogNew))
      (parseChangelog changelogNew)
    = merge notesOverview (parseChangelog changelogNew).
Proof.
  assert (Release_wf (parseChangelog changelogNew)) as Hwf.
  { split; [reflexivity|]. exists (lit "New notes"). reflexivity. }
  assert (version (parseChangelog changelogNew) ≠ []) as Hne.
  { vm_compute. discriminate. }
  split; [exact Hwf|]. split; [exact Hne|].
  exact (merge_idempotent notesOverview (parseChangelog changelogNew) Hwf Hne).
Defined.

(** C9.  The check for an entry already present is containment in the
    whole text: wherever the header occurs in the destination, between
    any [a] and [b], the merge is skipped and the destination stays as
    it is. *)
Theorem header_anywhere_skips_merge a b e :
  mergeRelease (a ++ version e ++ b) e = None
  ∧ merge (a ++ version e ++ b) e = a ++ version e ++ b.
Proof.
  assert (includes (a ++ version e ++ b) (version e)) as H
    by (apply includes_spec; eauto).
  split; [by apply mergeRelease_present|by apply merge_present].
Qed.

(** C3.  For every destination that contains the header of the new entry
    the merge gives the destination back unchanged, and the run of the
    script ends normally with no file written. *)
Theorem present_header_leaves_destination env w c d :
  files w !! SDK_CHANGELOG_PATH env = Some c →
  files w !! RELEASE_NOTES_PATH = Some d →
  version (parseChangelog c) ≠ [] → content (parseChangelog c) ≠ [] →
  includes d (version (parseChangelog c)) →
  merge d (parseChangelog c) = d
  ∧ exitOf env w = Normal tt
  ∧ files (updateReleaseNotes env w).2 = files w
  ∧ writes (updateReleaseNotes env w).2 = writes w.
Proof.
  intros Hsrc Hdst Hv Hc Hinc. split; [by apply merge_present|].
  unfold exitOf.
  by rewrite (run_already_present env w c d Hsrc Hv Hc Hdst
                (mergeRelease_present _ _ Hinc)).
Qed.

Lemma present_header_leaves_destination_witness :
  includes notesMention (version (parseChangelog changelogNew))
  ∧ merge notesMention (parseChangelog changelogNew) = notesMention
  ∧ writes (updateReleaseNotes env0
              (world0 [("./CHANGELOG.md"%string, changelogNew);
                       ("./release-notes.md"%string, notesMention)])).2
    = [].
Proof.
  assert (includes notesMention (version (parseChangelog changelogNew)))
    as Hinc by (vm_compute; exact I).
  split; [exact Hinc|].
  destruct (present_header_leaves_destination env0
              (world0 [("./CHANGELOG.md"%string, changelogNew);
                       ("./release-notes.md"%string, notesMention)])
              changelogNew notesMention) as (Hm & _ & _ & Hw).
  - reflexivity.
  - reflexivity.
  - vm_compute. discriminate.
  - vm_compute. discriminate.
  - exact Hinc.
  - split; [exact Hm|exact Hw].
Defined.

(** C4, as the script has it.  Take a destination that does not begin
    with whitespace and in which a version-header line [h] stands twice or
    more.  If the header of the new entry does not occur in it, the
    merged document has exactly one version-header line whose trimmed
    text is that of [h]; if it occurs, the merge is skipped and the
    destination stays as it is, duplicates included. *)
Theorem merge_collapses_duplicates d c h :
  trimStart d = d →
  isVersionHeader h → (2 ≤ lineCount h d)%nat →
  if includes d (version (parseChangelog c))
  then merge d (parseChangelog c) = d
  else headerCount (trim h) (merge d (parseChangelog c)) = 1%nat.
Proof.
  intros Hd Hh Hcount.
  destruct (includes d (version (parseChangelog c))) eqn:Hinc.
  { apply merge_present. by rewrite Hinc. }
  assert (h ∈ split d) as Hin by (apply lineCount_pos; lia).
  rewrite headerCount_merge by done.
  rewrite decide_False.
  - pose proof (headerCountIn_pos (trim h) h (split d) Hin Hh eq_refl).
    unfold headerCount. lia.
  - intros Hv. apply includes_line_trim in Hin.
    rewrite <- Hv in Hin. by rewrite Hinc in Hin.
Qed.

Lemma merge_collapses_duplicates_witness :
  trimStart notesDuplicated = notesDuplicated
  ∧ isVersionHeader (lit "## [1.0.0]")
  ∧ (2 ≤ lineCount (lit "## [1.0.0]") notesDuplicated)%nat
  ∧ includes notesDuplicated (version (parseChangelog changelogNew)) = false
  ∧ headerCount (trim (lit "## [1.0.0]"))
      (merge notesDuplicated (parseChangelog changelogNew)) = 1%nat.
Proof.
  split; [reflexivity|]. split; [vm_compute; exact I|].
  split; [vm_compute; lia|]. split; [reflexivity|].
  apply (merge_collapses_duplicates notesDuplicated changelogNew
           (lit "## [1.0.0]")).
  - reflexivity.
  - vm_compute. exact I.
  - vm_compute. lia.
Defined.

(** C4, as it is worded.  When the new entry's header is the duplicated
    one the merge is skipped and both lines stay; when an earlier header
    line differs from the duplicated one by whitespace only, neither of
    the two stays; and a first line that is indented becomes a header
    line when the document spliced around the entry is trimmed. *)
Lemma duplicates_survive_matching_entry :
  (lineCount (lit "## [1.0.0]") notesDuplicated = 2%nat
   ∧ lineCount (lit "## [1.0.0]")
       (merge notesDuplicated (parseChangelog changelogOld)) = 2%nat)
  ∧ (lineCount (lit "## [1.0.0]") notesDuplicatedSpace = 2%nat
     ∧ includes notesDuplicatedSpace (version (parseChangelog changelogNew))
       = false
     ∧ lineCount (lit "## [1.0.0]")
         (merge notesDuplicatedSpace (parseChangelog changelogNew)) = 0%nat)
  ∧ (lineCount (lit "## [1.0.0]") notesIndented = 2%nat
     ∧ includes notesIndented (version (parseChangelog changelogNew)) = false
     ∧ lineCount (lit "## [1.0.0]")
         (merge notesIndented (parseChangelog changelogNew)) = 2%nat).
Proof. vm_compute. repeat split. Qed.

(** C5 (fails on the code).  On the specification's own example the entry
    goes between the Overview text and the older section, with one blank
    line before it and one, not two, after it; and when the Overview line
    is directly followed by a version header the entry goes before the
    Overview line. *)
Theorem overview_insertion_examples :
  merge notesOverview (parseChangelog changelogNew)
  = doc ["## Overview"; "Some text"; "";
         "## [2.0.0]"; "New notes"; "";
         "## [1.0.0]"; "Old notes"]
  ∧ merge notesOverviewBare (parseChangelog changelogNew)
    = doc ["## [2.0.0]"; "New notes"; "";
           "## Overview"; "## [1.0.0]"; "Old notes"].
Proof. vm_compute. split; reflexivity. Qed.

(** C7, as the script has it.  For every changelog with exactly one
    version section, parsing it and merging the entry into the empty
    destination gives the entry's [full] text: the header line trimmed, a
    newline and the lines of the section, the whole trimmed.  That is the
    trimmed text of the section when the header line does not end in
    whitespace. *)
Theorem round_trip_single_section c :
  sectionCount c = 1%nat →
  merge [] (parseChangelog c) = full (parseChangelog c)
  ∧ ∃ h body,
      firstVersionSection (split c) = Some (h, body)
      ∧ full (parseChangelog c) = trim (trim h ++ LF :: join body)
      ∧ (trimEnd h = h → merge [] (parseChangelog c) = trim (sectionText c)).
Proof.
  intros Hcount.
  assert (hasVersionHeader c) as Hh.
  { unfold sectionCount in Hcount.
    destruct (filter _ (split c)) as [|l ls] eqn:E; [done|].
    assert (l ∈ filter (λ l, Is_true (isVersionHeader l)) (split c)) as Hl
      by (rewrite E; left).
    apply list_elem_of_filter in Hl as [? ?]. by exists l. }
  assert (version (parseChangelog c) ≠ []) as Hne
    by by intros ?%version_nil_iff.
  destruct (wf_full _ (parseChangelog_wf c) Hne) as (Ht & Hf & _).
  assert (merge [] (parseChangelog c) = full (parseChangelog c)) as Hm.
  { rewrite merge_absent.
    - change (removeDuplicateHeaders []) with (@nil N).
      change (includes [] OVERVIEW_MARK) with false. cbv iota.
      rewrite (trim_app_blank _ [LF; LF]); [done|].
      repeat constructor.
    - apply Is_true_false. by intros ?%includes_nil_l. }
  split; [done|]. rewrite Hm. unfold sectionText.
  revert Hne. rewrite parseChangelog_unfold.
  destruct (firstVersionSection (split c)) as [[h body]|] eqn:E; [|done].
  intros _. exists h, body. split; [done|]. split; [done|]. simpl.
  intros Hend. apply firstVersionSection_Some in E as (Hhd & _).
  destruct (header_head h Hhd) as (t & Hht).
  assert (trim h = h) as Hth.
  { unfold trim. rewrite Hht, trimStart_head by (vm_compute; tauto).
    by rewrite <- Hht. }
  rewrite Hth. destruct body as [|b body]; [|done].
  simpl. by rewrite (trim_app_blank h [LF]) by repeat constructor.
Qed.

Lemma round_trip_single_section_witness :
  sectionCount changelogNew = 1%nat
  ∧ merge [] (parseChangelog changelogNew) = full (parseChangelog changelogNew).
Proof.
  split; [reflexivity|].
  apply (round_trip_single_section changelogNew). reflexivity.
Defined.

(** C7, as it is worded: with a header line that ends in a space the
    destination is not the trimmed text of the section. *)
Lemma round_trip_loses_header_space :
  sectionCount changelogOneSectionSpace = 1%nat
  ∧ sectionText changelogOneSectionSpace = changelogOneSectionSpace
  ∧ merge [] (parseChangelog changelogOneSectionSpace)
    = doc ["## [1.0.0]"; "notes"]
  ∧ merge [] (parseChangelog changelogOneSectionSpace)
    ≠ trim (sectionText changelogOneSectionSpace).
Proof. vm_compute. repeat split; discriminate. Qed.

(** C10.  [removeDuplicateHeaders] drops header lines only: the lines
    that are not version headers are the same before and after, in the
    same order; the lines kept are a sub-sequence of the lines given; and
    of the header lines with one trimmed text exactly the first is
    kept. *)
Theorem removeDuplicateHeaders_keeps_body d :
  filter (λ l, ¬ isVersionHeader l) (split (removeDuplicateHeaders d))
  = filter (λ l, ¬ isVersionHeader l) (split d)
  ∧ split (removeDuplicateHeaders d) `sublist_of` split d
  ∧ ∀ k, headerCount k (removeDuplicateHeaders d)
         = (headerCount k d `min` 1)%nat.
Proof.
  rewrite split_removeDuplicateHeaders. split; [apply dedupLoop_body|].
  split; [apply dedupLoop_sublist|].
  intros k. apply headerCount_removeDuplicateHeaders.
Qed.

(** ** The run *)

(** C1 (fails on the code).  With a changelog that parses and no
    destination file the process exits with code 1 at the read of the
    destination: nothing is written, and the message of the [catch] that
    would go on with an empty document is never printed. *)
Theorem missing_destination_exits :
  files worldNoDestination !! SDK_CHANGELOG_PATH env0 = Some changelogNew
  ∧ files worldNoDestination !! RELEASE_NOTES_PATH = None
  ∧ exitOf env0 worldNoDestination = Exit 1
  ∧ writes (updateReleaseNotes env0 worldNoDestination).2 = []
  ∧ files (updateReleaseNotes env0 worldNoDestination).2
    = files worldNoDestination
  ∧ consoleOf env0 worldNoDestination
    = [LogStart; LogReading "./CHANGELOG.md"; LogLatest (lit "## [2.0.0]");
       ErrRead RELEASE_NOTES_PATH].
Proof.
  split; [reflexivity|]. split; [reflexivity|].
  unfold exitOf, consoleOf.
  rewrite (run_destination_missing env0 worldNoDestination changelogNew).
  - done.
  - reflexivity.
  - vm_compute. discriminate.
  - vm_compute. discriminate.
  - reflexivity.
Qed.

(** * Further properties of the script *)

(** ** Files and notifications *)

#[local] Opaque parseChangelog mergeRelease.

Section io.
Variable env : Env.
Implicit Types (w : World) (c d text : jsstring) (path : string).

Lemma writeFile_ok path text w :
  path ∉ readonly w →
  writeFile path text w
  = (Normal tt,
     {| files := <[path := text]> (files w); readonly := readonly w;
        webhookUp := webhookUp w; console := console w ++ [LogWritten path];
        writes := writes w ++ [(path, text)]; posts := posts w |}).
Proof.
  intros Hro. unfold writeFile, tryCatch, bind, fs_writeFileSync, consoleLog.
  by rewrite bool_decide_eq_false_2 by done.
Qed.

Lemma writeFile_refused path text w :
  path ∈ readonly w →
  writeFile path text w = (Exit 1, logged [ErrWrite path] w).
Proof.
  intros Hro.
  unfold writeFile, tryCatch, bind, fs_writeFileSync, consoleLog, process_exit.
  by rewrite bool_decide_eq_true_2 by done.
Qed.

Lemma sendSlackNotification_eq message w :
  ∃ evs,
    sendSlackNotification env message w
    = (Normal tt,
       {| files := files w; readonly := readonly w; webhookUp := webhookUp w;
          console := console w ++ evs; writes := writes w;
          posts := posts w ++ slackPosts env w message |}).
Proof.
  unfold sendSlackNotification, slackPosts, SLACK_WEBHOOK_URL.
  destruct (env_SLACK_WEBHOOK_URL env) as [url|]; [case_decide|].
  - exists [LogNoWebhook]. unfold consoleLog. by rewrite app_nil_r.
  - unfold tryCatch, bind, axios_post, consoleLog.
    destruct (webhookUp w) eqn:Hup; simpl.
    + exists [LogSlackSent]. by rewrite ?Hup.
    + exists [ErrSlack]. by rewrite ?Hup, app_nil_r.
  - exists [LogNoWebhook]. unfold consoleLog. by rewrite app_nil_r.
Qed.

(** A run that writes, with what it posts. *)
Lemma run_written_posts w c d u :
  files w !! SDK_CHANGELOG_PATH env = Some c →
  version (parseChangelog c) ≠ [] → content (parseChangelog c) ≠ [] →
  files w !! RELEASE_NOTES_PATH = Some d →
  mergeRelease d (parseChangelog c) = Some u →
  RELEASE_NOTES_PATH ∉ readonly w →
  ∃ evs,
    updateReleaseNotes env w
    = (Normal tt,
       {| files := <[RELEASE_NOTES_PATH := u]> (files w);
          readonly := readonly w; webhookUp := webhookUp w;
          console := console w ++ evs;
          writes := writes w ++ [(RELEASE_NOTES_PATH, u)];
          posts := posts w
            ++ slackPosts env w (slackMessage (version (parseChangelog c))) |}).
Proof.
  intros Hsrc Hv Hc Hdst Hm Hro.
  unfold updateReleaseNotes, readFile, tryCatch, bind, fs_readFileSync,
    consoleLog, process_exit, ret. simpl.
  rewrite Hsrc. simpl. rewrite parse_guard_passes by done. simpl.
  rewrite Hdst. simpl. rewrite Hm. simpl.
  rewrite writeFile_ok by done.
  match goal with
  | |- context [sendSlackNotification env ?m ?w'] =>
      destruct (sendSlackNotification_eq m w') as (evs & ->)
  end.
  simpl. eexists. unfold slackPosts. simpl. by rewrite <- !app_assoc.
Qed.
(** Every run ends in one of three ways: it exits with code 1 having
    only printed, it ends normally having only printed, or it ends
    normally having written the merged text and notified. *)
Lemma run_cases w :
  (∃ evs, updateReleaseNotes env w = (Exit 1, logged evs w))
  ∨ (∃ evs, updateReleaseNotes env w = (Normal tt, logged evs w))
  ∨ (∃ c d u evs,
       files w !! SDK_CHANGELOG_PATH env = Some c
       ∧ files w !! RELEASE_NOTES_PATH = Some d
       ∧ mergeRelease d (parseChangelog c) = Some u
       ∧ updateReleaseNotes env w
         = (Normal tt,
            {| files := <[RELEASE_NOTES_PATH := u]> (files w);
               readonly := readonly w; webhookUp := webhookUp w;
               console := console w ++ evs;
               writes := writes w ++ [(RELEASE_NOTES_PATH, u)];
               posts := posts w
                 ++ slackPosts env w
                      (slackMessage (version (parseChangelog c))) |})).
Proof.
  destruct (files w !! SDK_CHANGELOG_PATH env) as [c|] eqn:Hsrc.
  2: { left. eexists. by apply run_source_missing. }
  destruct (decide (version (parseChangelog c) = [])) as [Hv|Hv].
  { left. eexists. apply (run_parse_failure env w c); auto. }
  destruct (decide (content (parseChangelog c) = [])) as [Hc|Hc].
  { left. eexists. apply (run_parse_failure env w c); auto. }
  destruct (files w !! RELEASE_NOTES_PATH) as [d|] eqn:Hdst.
  2: { left. eexists. by apply (run_destination_missing env w c). }
  destruct (mergeRelease d (parseChangelog c)) as [u|] eqn:Hm.
  2: { right; left. eexists. by apply (run_already_present env w c d). }
  destruct (decide (RELEASE_NOTES_PATH ∈ readonly w)) as [Hro|Hro].
  { left. eexists. by apply (run_write_failure env w c d u). }
  right; right.
  destruct (run_written_posts w c d u) as (evs & Hrun); [done..|].
  by exists c, d, u, evs.
Qed.
End io.

#[local] Transparent parseChangelog mergeRelease.

Lemma mergeRelease_trimmed d e u : mergeRelease d e = Some u → trim u = u.
Proof.
  unfold mergeRelease. destruct (includes d (version e)); [done|].
  intros [= <-]. destruct (includes _ OVERVIEW_MARK); [|apply trim_idem].
  unfold insertReleaseIntoDocs. apply trim_idem.
Qed.

Lemma merge_written d e u : mergeRelease d e = Some u → merge d e = u.
Proof. intros H. unfold merge. by rewrite H. Qed.

Lemma mergeRelease_absent d e :
  includes d (version e) = false → mergeRelease d e = Some (merge d e).
Proof.
  intros H. unfold merge, mergeRelease. by rewrite H.
Qed.

(** X1.  [readFile] gives the text of a file that can be read and leaves
    the world as it is; when the read fails it prints the error and ends
    the process with code 1.  It never throws, so a [try] around it never
    runs its [catch]. *)
Theorem readFile_returns_or_exits path (handler : Proc jsstring) w :
  readFile path w
  = match files w !! path with
    | Some text => (Normal text, w)
    | None => (Exit 1, logged [ErrRead path] w)
    end
  ∧ tryCatch (readFile path) handler w = readFile path w.
Proof.
  split; [|apply tryCatch_readFile].
  unfold readFile, tryCatch, fs_readFileSync, bind, consoleLog, process_exit.
  by destruct (files w !! path).
Qed.





(** X5.  A run writes at most once, and only to the release notes: every
    other file, the changelog included, is as it was; the text written is
    trimmed and is what the file then holds; and a notification is posted
    at most once and only after a write. *)
Theorem run_touches_only_destination env w :
  (∀ path, path ≠ RELEASE_NOTES_PATH →
           files (worldAfter env w) !! path = files w !! path)
  ∧ ∃ ws ps,
      writes (worldAfter env w) = writes w ++ ws
      ∧ posts (worldAfter env w) = posts w ++ ps
      ∧ (length ws ≤ 1)%nat ∧ (length ps ≤ length ws)%nat
      ∧ ∀ path text, (path, text) ∈ ws →
          path = RELEASE_NOTES_PATH
          ∧ files (worldAfter env w) !! path = Some text
          ∧ trim text = text.
Proof.
  unfold worldAfter.
  destruct (run_cases env w)
    as [(evs & ->)|[(evs & ->)|(c & d & u & evs & _ & _ & Hm & ->)]]; simpl.
  - split; [done|]. exists [], []. rewrite !app_nil_r.
    do 2 (split; [done|]). do 2 (split; [simpl; lia|]).
    by intros ?? ?%elem_of_nil.
  - split; [done|]. exists [], []. rewrite !app_nil_r.
    do 2 (split; [done|]). do 2 (split; [simpl; lia|]).
    by intros ?? ?%elem_of_nil.
  - split; [intros path Hp; by rewrite lookup_insert_ne|].
    eexists _, _. split; [done|]. split; [done|]. split; [simpl; lia|].
    split.
    + unfold slackPosts. destruct (SLACK_WEBHOOK_URL env); [|simpl; lia].
      destruct (webhookUp w); simpl; lia.
    + intros path text [= -> ->]%list_elem_of_singleton.
      rewrite lookup_insert_eq. split; [done|]. split; [done|].
      by eapply mergeRelease_trimmed.
Qed.

(** X6.  When the changelog parses to a complete entry, the release notes
    can be read and written and do not contain the entry's header, the
    run ends normally with the merged document in the release notes,
    written once; the merged document contains the header.  This holds
    whether or not a webhook is configured and whether or not it
    answers. *)
Theorem run_updates_destination env w c d :
  files w !! SDK_CHANGELOG_PATH env = Some c →
  files w !! RELEASE_NOTES_PATH = Some d →
  version (parseChangelog c) ≠ [] → content (parseChangelog c) ≠ [] →
  includes d (version (parseChangelog c)) = false →
  RELEASE_NOTES_PATH ∉ readonly w →
  exitOf env w = Normal tt
  ∧ files (worldAfter env w)
    = <[RELEASE_NOTES_PATH := merge d (parseChangelog c)]> (files w)
  ∧ writes (worldAfter env w)
    = writes w ++ [(RELEASE_NOTES_PATH, merge d (parseChangelog c))]
  ∧ posts (worldAfter env w)
    = posts w ++ slackPosts env w (slackMessage (version (parseChangelog c)))
  ∧ includes (merge d (parseChangelog c)) (version (parseChangelog c)).
Proof.
  intros Hsrc Hdst Hv Hc Hinc Hro.
  pose proof (mergeRelease_absent _ _ Hinc) as Hm.
  destruct (run_written_posts env w c d _ Hsrc Hv Hc Hdst Hm Hro)
    as (evs & Hrun).
  unfold exitOf, worldAfter. rewrite Hrun. simpl.
  do 4 (split; [done|]).
  by apply (mergeRelease_includes d _ _ (parseChangelog_wf c)).
Qed.

Lemma run_updates_destination_witness :
  files (worldWebhookDown changelogNew notesPlain)
    !! SDK_CHANGELOG_PATH envSlack = Some changelogNew
  ∧ files (worldWebhookDown changelogNew notesPlain)
      !! RELEASE_NOTES_PATH = Some notesPlain
  ∧ exitOf envSlack (worldWebhookDown changelogNew notesPlain) = Normal tt
  ∧ writes (worldAfter envSlack (worldWebhookDown changelogNew notesPlain))
    = [(RELEASE_NOTES_PATH, merge notesPlain (parseChangelog changelogNew))]
  ∧ posts (worldAfter envSlack (worldWebhookDown changelogNew notesPlain))
    = [].
Proof.
  split; [reflexivity|]. split; [reflexivity|].
  destruct (run_updates_destination envSlack
              (worldWebhookDown changelogNew notesPlain)
              changelogNew notesPlain) as (He & _ & Hw & Hp & _).
  - reflexivity.
  - reflexivity.
  - vm_compute. discriminate.
  - vm_compute. discriminate.
  - reflexivity.
  - simpl. apply not_elem_of_empty.
  - split; [exact He|]. split; [exact Hw|exact Hp].
Defined.

(** X7.  Running the script again after a run that updated the release
    notes changes nothing: with the changelog and the release notes in
    different files, the second run ends normally, writes no file and
    posts no notification. *)
Theorem second_run_writes_nothing env w c d :
  SDK_CHANGELOG_PATH env ≠ RELEASE_NOTES_PATH →
  files w !! SDK_CHANGELOG_PATH env = Some c →
  files w !! RELEASE_NOTES_PATH = Some d →
  version (parseChangelog c) ≠ [] → content (parseChangelog c) ≠ [] →
  includes d (version (parseChangelog c)) = false →
  RELEASE_NOTES_PATH ∉ readonly w →
  exitOf env (worldAfter env w) = Normal tt
  ∧ files (worldAfter env (worldAfter env w)) = files (worldAfter env w)
  ∧ writes (worldAfter env (worldAfter env w)) = writes (worldAfter env w)
  ∧ posts (worldAfter env (worldAfter env w)) = posts (worldAfter env w).
Proof.
  intros Hne Hsrc Hdst Hv Hc Hinc Hro.
  pose proof (mergeRelease_absent _ _ Hinc) as Hm.
  destruct (run_written_posts env w c d _ Hsrc Hv Hc Hdst Hm Hro)
    as (evs & Hrun).
  assert (files (worldAfter env w) !! SDK_CHANGELOG_PATH env = Some c) as Hsrc1.
  { unfold worldAfter. rewrite Hrun. simpl. by rewrite lookup_insert_ne. }
  assert (files (worldAfter env w) !! RELEASE_NOTES_PATH
          = Some (merge d (parseChangelog c))) as Hdst1.
  { unfold worldAfter. rewrite Hrun. simpl. by rewrite lookup_insert_eq. }
  assert (mergeRelease (merge d (parseChangelog c)) (parseChangelog c) = None)
    as Hm1.
  { apply mergeRelease_present.
    by apply (mergeRelease_includes d _ _ (parseChangelog_wf c)). }
  remember (worldAfter env w) as w1 eqn:Hw1. unfold exitOf, worldAfter.
  by rewrite (run_already_present env w1 c _ Hsrc1 Hv Hc Hdst1 Hm1).
Qed.

Lemma second_run_writes_nothing_witness :
  SDK_CHANGELOG_PATH env0 ≠ RELEASE_NOTES_PATH
  ∧ includes notesOverview (version (parseChangelog changelogNew)) = false
  ∧ writes (worldAfter env0 (worldBoth changelogNew notesOverview))
    = [(RELEASE_NOTES_PATH, merge notesOverview (parseChangelog changelogNew))]
  ∧ writes (worldAfter env0
              (worldAfter env0 (worldBoth changelogNew notesOverview)))
    = writes (worldAfter env0 (worldBoth changelogNew notesOverview)).
Proof.
  assert (SDK_CHANGELOG_PATH env0 ≠ RELEASE_NOTES_PATH) as Hne
    by (vm_compute; discriminate).
  split; [exact Hne|]. split; [reflexivity|]. split; [reflexivity|].
  destruct (second_run_writes_nothing env0
              (worldBoth changelogNew notesOverview)
              changelogNew notesOverview Hne) as (_ & _ & Hw & _).
  - reflexivity.
  - reflexivity.
  - vm_compute. discriminate.
  - vm_compute. discriminate.
  - reflexivity.
  - simpl. apply not_elem_of_empty.
  - exact Hw.
Defined.



(** X9.  When the changelog cannot be read the run exits with code 1
    right after the failed read, before anything is parsed: the read
    error is the last line printed. *)
Theorem missing_source_is_fatal env w :
  files w !! SDK_CHANGELOG_PATH env = None →
  exitOf env w = Exit 1
  ∧ consoleOf env w
    = console w ++ [LogStart; LogReading (SDK_CHANGELOG_PATH env);
                    ErrRead (SDK_CHANGELOG_PATH env)].
Proof.
  intros Hsrc. unfold exitOf, consoleOf.
  by rewrite (run_source_missing env w Hsrc).
Qed.

Lemma missing_source_is_fatal_witness :
  files (world0 [("./release-notes.md"%string, notesPlain)])
    !! SDK_CHANGELOG_PATH env0 = None
  ∧ exitOf env0 (world0 [("./release-notes.md"%string, notesPlain)]) = Exit 1.
Proof.
  split; [reflexivity|].
  apply (missing_source_is_fatal env0
           (world0 [("./release-notes.md"%string, notesPlain)])).
  reflexivity.
Defined.

(** ** The parser *)

Section parser_props.
Implicit Types (c s k : jsstring) (ls : list jsstring).

Lemma trim_trimEnd s : trim (trimEnd s) = trim s.
Proof. unfold trim. by rewrite trimStart_trimEnd, trimEnd_idem. Qed.

Lemma no_header_of_count s :
  (∀ k, headerCount k s = 0%nat) → Forall (λ l, ¬ isVersionHeader l) (split s).
Proof.
  intros Hz. apply Forall_forall. intros l Hl Hh.
  pose proof (headerCountIn_pos (trim l) l (split s) Hl Hh eq_refl) as Hp.
  specialize (Hz (trim l)). unfold headerCount in Hz. lia.
Qed.

Lemma parseChangelog_nil :
  parseChangelog [] = {| version := []; content := []; full := [] |}.
Proof. reflexivity. Qed.

(** The entry parsed from a changelog with a first section [h], [body]. *)
Lemma parseChangelog_full_shape c h body :
  firstVersionSection (split c) = Some (h, body) →
  trim (trim h) = trim h ∧ trim h ≠ [] ∧ isVersionHeader (trim h)
  ∧ (LF ∉ trim h)
  ∧ Forall (λ l, LF ∉ l) body ∧ Forall (λ l, ¬ isVersionHeader l) body
  ∧ full (parseChangelog c) = trim h ++ trimEnd (LF :: join body).
Proof.
  intros E. rewrite parseChangelog_unfold, E. simpl.
  apply firstVersionSection_Some in E
    as (Hh & Hbody & pre & rest & Hc & _ & _).
  pose proof (split_no_LF c) as HLF. rewrite Hc in HLF.
  apply Forall_app in HLF as [_ [Hh_LF [Hbody_LF _]%Forall_app]%Forall_cons].
  pose proof (isVersionHeader_trim h Hh) as Hv.
  assert (trim h ≠ []) as Hne.
  { intros E. rewrite E in Hv. by vm_compute in Hv. }
  split; [apply trim_idem|]. split; [done|]. split; [done|].
  split; [by apply trim_no_LF|]. split; [done|]. split; [done|].
  pose proof (trim_around [] (trim h) (LF :: join body) (trim_idem h) Hne)
    as H.
  by simpl in H.
Qed.
End parser_props.

(** X10.  [parseChangelog] returns the empty entry, all three fields
    empty, exactly for the changelogs without a version-header line. *)
Theorem parseChangelog_empty_iff c :
  parseChangelog c = {| version := []; content := []; full := [] |}
  ↔ ¬ hasVersionHeader c.
Proof.
  split.
  - intros E. apply version_nil_iff. by rewrite E.
  - intros Hn. rewrite parseChangelog_unfold. unfold firstVersionSection.
    destruct (dropUntilHeader (split c)) as [|h rest] eqn:E; [done|].
    apply dropUntilHeader_Some in E as (Hh & pre & Hc & _).
    destruct Hn. exists h. split; [|done]. rewrite Hc.
    apply elem_of_app. right. left.
Qed.

(** X11.  Parsing the [full] text of a parsed entry gives the same entry
    again. *)
Theorem parseChangelog_reparse c :
  parseChangelog (full (parseChangelog c)) = parseChangelog c.
Proof.
  destruct (firstVersionSection (split c)) as [[h body]|] eqn:E.
  2: { rewrite (parseChangelog_unfold c), E. simpl. apply parseChangelog_nil. }
  destruct (parseChangelog_full_shape c h body E)
    as (Ht & Hne & Hv & HLF & Hbody_LF & Hbody & Hfull).
  rewrite Hfull. rewrite (parseChangelog_unfold c), E.
  destruct (trimEnd (join body)) as [|x t] eqn:Eb.
  - assert (blank (join body)) as Hblank by by apply trimEnd_nil_blank.
    assert (trimEnd (LF :: join body) = []) as ->.
    { apply trimEnd_blank. by apply blank_cons. }
    rewrite app_nil_r, parseChangelog_unfold, split_one by done.
    unfold firstVersionSection. simpl. rewrite (Is_true_true_1 _ Hv). simpl.
    rewrite Ht. f_equal.
    + by rewrite (trim_blank (join body)).
    + rewrite (trim_app_blank _ [LF]) by repeat constructor.
      rewrite (trim_app_blank _ (LF :: join body)) by by apply blank_cons.
      done.
  - assert (trimEnd (LF :: join body) = LF :: trimEnd (join body)) as ->.
    { simpl. by rewrite Eb. }
    rewrite parseChangelog_unfold, split_app_LF, split_one by done.
    assert (Forall (λ l, ¬ isVersionHeader l) (split (trimEnd (join body))))
      as Hnh.
    { apply no_header_of_count. intros k.
      rewrite headerCount_trimEnd, headerCount_join by done.
      by apply headerCountIn_no_header. }
    pose proof (firstVersionSection_app [] (trim h)
                  (split (trimEnd (join body))) []) as Hf.
    simpl in Hf. rewrite app_nil_r in Hf.
    simpl. rewrite Hf by (done || by left).
    rewrite join_split, Ht, trim_trimEnd. f_equal.
    rewrite <- (trim_trimEnd (trim h ++ LF :: join body)).
    f_equal. rewrite (trimEnd_app_ne (trim h) (LF :: join body)).
    + simpl. by rewrite Eb.
    + simpl. by rewrite Eb.
Qed.

(** X12.  What every parsed entry satisfies: the three fields are
    trimmed; the header is empty or one line that starts with the
    version mark; [full] begins with the header; and of the lines of
    [full] the only version header is the first. *)
Theorem parseChangelog_entry_invariants c k :
  trim (version (parseChangelog c)) = version (parseChangelog c)
  ∧ trim (content (parseChangelog c)) = content (parseChangelog c)
  ∧ trim (full (parseChangelog c)) = full (parseChangelog c)
  ∧ (version (parseChangelog c) = []
     ∨ isVersionHeader (version (parseChangelog c)))
  ∧ (LF ∉ version (parseChangelog c))
  ∧ version (parseChangelog c) `prefix_of` full (parseChangelog c)
  ∧ headerCount k (full (parseChangelog c))
    = if decide (k = version (parseChangelog c) ∧ k ≠ [])
      then 1%nat else 0%nat.
Proof.
  destruct (firstVersionSection (split c)) as [[h body]|] eqn:E.
  - destruct (parseChangelog_full_shape c h body E)
      as (Ht & Hne & Hv & HLF & _ & _ & Hfull).
    assert (version (parseChangelog c) = trim h) as Hver
      by by rewrite parseChangelog_unfold, E.
    rewrite parseChangelog_headerCount by by rewrite Hver.
    rewrite Hfull, Hver.
    split; [done|]. split; [rewrite parseChangelog_unfold, E; apply trim_idem|].
    split; [rewrite <- Hfull, parseChangelog_unfold, E; apply trim_idem|].
    split; [by right|]. split; [done|]. split; [by eexists|].
    apply decide_ext. split; [by intros <-|by intros [-> _]].
  - rewrite parseChangelog_unfold, E. simpl.
    do 3 (split; [done|]). split; [by left|].
    split; [apply not_elem_of_nil|]. split; [done|].
    rewrite headerCount_nil. by rewrite decide_False by (intros [-> ?]; done).
Qed.

(** ** Duplicate headers *)

Section dedup_props.
Implicit Types (d k : jsstring) (ls : list jsstring) (seen : gset jsstring).

Lemma keys_cons l ls :
  headerKeysIn (l :: ls) = if isVersionHeader l then trim l :: headerKeysIn ls else headerKeysIn ls.
Proof.
  unfold headerKeysIn. rewrite filter_cons.
  destruct (isVersionHeader l); by case_decide.
Qed.

Lemma dedupLoop_fixed ls seen :
  NoDup (headerKeysIn ls) → (∀ k, k ∈ headerKeysIn ls → k ∉ seen) →
  dedupLoop ls seen [] = ls.
Proof.
  revert seen. induction ls as [|l ls IH]; intros seen Hnd Hseen; [done|].
  rewrite dedupLoop_cons. rewrite keys_cons in Hnd, Hseen.
  destruct (isVersionHeader l).
  - apply NoDup_cons in Hnd as [Hl Hnd].
    rewrite bool_decide_eq_false_2 by (apply Hseen; left).
    f_equal. apply IH; [done|]. intros k Hk.
    apply not_elem_of_union. split; [|apply Hseen; by right].
    apply not_elem_of_singleton. by intros ->.
  - f_equal. by apply IH.
Qed.

Lemma dedupLoop_fixed_inv ls seen :
  dedupLoop ls seen [] = ls →
  NoDup (headerKeysIn ls) ∧ ∀ k, k ∈ headerKeysIn ls → k ∉ seen.
Proof.
  revert seen. induction ls as [|l ls IH]; intros seen.
  - intros _. split; [constructor|]. by intros k ?%elem_of_nil.
  - rewrite dedupLoop_cons, keys_cons.
    destruct (isVersionHeader l); [case_bool_decide as Hin|].
    + intros E. pose proof (sublist_length _ _ (dedupLoop_sublist ls seen)) as H.
      rewrite E in H. simpl in H. lia.
    + intros [= E]. destruct (IH _ E) as [Hnd Hseen]. split.
      * apply NoDup_cons. split; [|done]. intros Hk.
        apply (Hseen _ Hk). apply elem_of_union. left.
        by apply elem_of_singleton.
      * intros k [->|Hk]%elem_of_cons; [done|].
        intros Hk'. apply (Hseen _ Hk). apply elem_of_union. by right.
    + intros [= E]. by apply IH.
Qed.

Lemma dedupLoop_NoDup ls seen :
  NoDup (headerKeysIn (dedupLoop ls seen []))
  ∧ ∀ k, k ∈ headerKeysIn (dedupLoop ls seen []) → k ∉ seen.
Proof.
  revert seen. induction ls as [|l ls IH]; intros seen.
  - split; [constructor|]. by intros k ?%elem_of_nil.
  - rewrite dedupLoop_cons.
    destruct (isVersionHeader l) eqn:Hl; [case_bool_decide as Hin|].
    + apply IH.
    + rewrite keys_cons, Hl.
      destruct (IH ({[trim l]} ∪ seen)) as [Hnd Hseen]. split.
      * apply NoDup_cons. split; [|done]. intros Hk.
        apply (Hseen _ Hk). apply elem_of_union. left.
        by apply elem_of_singleton.
      * intros k [->|Hk]%elem_of_cons; [done|].
        intros Hk'. apply (Hseen _ Hk). apply elem_of_union. by right.
    + rewrite keys_cons, Hl. apply IH.
Qed.

Lemma removeDuplicateHeaders_fixed d :
  NoDup (headerKeys d) → removeDuplicateHeaders d = d.
Proof.
  intros Hnd. unfold removeDuplicateHeaders.
  rewrite dedupLoop_fixed; [apply join_split|done|].
  intros k _. apply not_elem_of_empty.
Qed.

Lemma removeDuplicateHeaders_NoDup d :
  NoDup (headerKeys (removeDuplicateHeaders d)).
Proof.
  unfold headerKeys. rewrite split_removeDuplicateHeaders.
  apply (dedupLoop_NoDup (split d) ∅).
Qed.

Lemma removeDuplicateHeaders_fixed_inv d :
  removeDuplicateHeaders d = d → NoDup (headerKeys d).
Proof.
  intros E. rewrite <- E. apply removeDuplicateHeaders_NoDup.
Qed.
End dedup_props.

(** X13.  [removeDuplicateHeaders] is idempotent: cleaning a cleaned
    document changes nothing. *)
Theorem removeDuplicateHeaders_idempotent d :
  removeDuplicateHeaders (removeDuplicateHeaders d) = removeDuplicateHeaders d.
Proof.
  apply removeDuplicateHeaders_fixed, removeDuplicateHeaders_NoDup.
Qed.

(** X14.  [removeDuplicateHeaders] leaves a document exactly as it is if
    and only if no two of its version-header lines have the same trimmed
    text; in particular a document without header lines, or the empty
    one, is unchanged. *)
Theorem removeDuplicateHeaders_fixed_iff d :
  removeDuplicateHeaders d = d ↔ NoDup (headerKeys d).
Proof.
  split; [apply removeDuplicateHeaders_fixed_inv|
          apply removeDuplicateHeaders_fixed].
Qed.

(** ** The merged document *)

Section merge_props.
Implicit Types (d s t l : jsstring) (e : Release) (ls : list jsstring).

Lemma split_app_no_LF t s :
  LF ∉ t → ∃ hd tl, split s = hd :: tl ∧ split (t ++ s) = (t ++ hd) :: tl.
Proof.
  intros Ht. pose proof (split_ne s) as Hne.
  destruct (split s) as [|hd tl] eqn:E; [done|]. exists hd, tl.
  split; [done|]. induction t as [|x t IH]; [done|].
  apply not_elem_of_cons in Ht as [Hx Ht]. simpl.
  rewrite (proj2 (N.eqb_neq _ _)) by done. by rewrite IH.
Qed.

(** A text without a newline that occurs in a document occurs in one of
    its lines. *)
Lemma includes_in_line s t :
  LF ∉ t → includes s t → ∃ l, l ∈ split s ∧ includes l t.
Proof.
  intros Ht (a & b & ->)%includes_spec.
  induction a as [|x a (l & Hl & Hinc)].
  - destruct (split_app_no_LF t b Ht) as (hd & tl & _ & E).
    exists (t ++ hd). simpl. rewrite E. split; [left|].
    apply includes_spec. by exists [], hd.
  - simpl. destruct (x =? LF); [exists l; split; [by right|done]|].
    pose proof (split_ne (a ++ t ++ b)) as Hne.
    destruct (split (a ++ t ++ b)) as [|l0 ls]; [done|].
    apply elem_of_cons in Hl as [->|Hl].
    + exists (x :: l0). split; [left|].
      apply includes_spec in Hinc as (a' & b' & ->).
      apply includes_spec. by exists (x :: a'), b'.
    + exists l. split; [by right|done].
Qed.

Lemma includes_of_line s l t : l ∈ split s → includes l t → includes s t.
Proof.
  intros (a & b & ->)%elem_of_split_infix Hinc.
  eapply includes_trans; [|done]. apply includes_spec. eauto.
Qed.

(** Cleaning brings no text into a document. *)
Lemma removeDuplicateHeaders_includes d t :
  LF ∉ t → includes (removeDuplicateHeaders d) t → includes d t.
Proof.
  intros Ht (l & Hl & Hinc)%includes_in_line; [|done].
  rewrite split_removeDuplicateHeaders in Hl.
  apply (includes_of_line d l); [|done].
  by eapply sublist_subseteq; [apply dedupLoop_sublist|].
Qed.

Lemma blank_lines s : blank s → Forall blank (split s).
Proof.
  intros Hs. apply Forall_forall. intros l (a & b & ->)%elem_of_split_infix.
  by apply blank_app in Hs as [_ [? _]%blank_app].
Qed.

Lemma blank_join ls : Forall blank ls → blank (join ls).
Proof.
  induction 1 as [|l ls Hl _ IH]; [constructor|].
  destruct ls as [|l' ls]; [done|]. rewrite join_cons by done.
  apply blank_app. split; [done|]. by apply blank_cons.
Qed.

(** Cleaning a document that has visible text leaves visible text. *)
Lemma removeDuplicateHeaders_blank d :
  blank (removeDuplicateHeaders d) → blank d.
Proof.
  intros Hb%blank_lines. rewrite Forall_forall in Hb.
  rewrite <- (join_split d). apply blank_join, Forall_forall.
  intros l Hl. destruct (isVersionHeader l) eqn:Hh.
  - exfalso.
    pose proof (headerCountIn_pos (trim l) l (split d) Hl
                  (Is_true_true_2 _ Hh) eq_refl) as Hpos.
    assert (1 ≤ headerCount (trim l) (removeDuplicateHeaders d))%nat as Hc.
    { rewrite headerCount_removeDuplicateHeaders. unfold headerCount. lia. }
    unfold headerCount, headerCountIn in Hc.
    destruct (filter _ (split (removeDuplicateHeaders d))) as [|l' ls'] eqn:E;
      [simpl in Hc; lia|].
    assert (l' ∈ filter (λ l0, isVersionHeader l0 ∧ trim l0 = trim l)
                   (split (removeDuplicateHeaders d))) as Hl'
      by (rewrite E; left).
    apply list_elem_of_filter in Hl' as [[Hh' _] Hin'].
    by apply (header_not_blank l' Hh'), Hb.
  - apply Hb.
    assert (l ∈ filter (λ l, ¬ isVersionHeader l)
                  (split (removeDuplicateHeaders d))) as Hf.
    { rewrite split_removeDuplicateHeaders, dedupLoop_body.
      apply list_elem_of_filter. split; [by apply Is_true_false|done]. }
    by apply list_elem_of_filter in Hf as [_ ?].
Qed.

Lemma headerCountIn_zero k ls :
  (∀ l, l ∈ ls → isVersionHeader l → trim l ≠ k) → headerCountIn k ls = 0%nat.
Proof.
  intros H. unfold headerCountIn.
  destruct (filter _ ls) as [|l ls'] eqn:E; [done|].
  assert (l ∈ filter (λ l, isVersionHeader l ∧ trim l = k) ls) as Hl
    by (rewrite E; left).
  apply list_elem_of_filter in Hl as [[Hh Hk] Hin]. by destruct (H l Hin Hh).
Qed.
End merge_props.

(** X15.  What a merge writes is trimmed and contains the [full] text of
    the entry verbatim. *)
Theorem merge_writes_entry_verbatim d e :
  Release_wf e → version e ≠ [] → includes d (version e) = false →
  trim (merge d e) = merge d e ∧ includes (merge d e) (full e).
Proof.
  intros Hwf Hne Hinc. destruct (wf_full e Hwf Hne) as (Ht & Hf & _).
  split; [by apply (mergeRelease_trimmed d e), mergeRelease_absent|].
  rewrite merge_absent by done. apply includes_spec.
  destruct (includes _ OVERVIEW_MARK).
  - by apply insertReleaseIntoDocs_around.
  - pose proof (trim_around [] (full e)
      (LF :: LF :: removeDuplicateHeaders d) Ht Hf) as H.
    simpl in H. rewrite H. by eexists [], _.
Qed.

Lemma merge_writes_entry_verbatim_witness :
  Release_wf (parseChangelog changelogNew)
  ∧ version (parseChangelog changelogNew) ≠ []
  ∧ includes notesOverview (version (parseChangelog changelogNew)) = false
  ∧ includes (merge notesOverview (parseChangelog changelogNew))
      (full (parseChangelog changelogNew)).
Proof.
  assert (Release_wf (parseChangelog changelogNew)) as Hwf.
  { split; [reflexivity|]. exists (lit "New notes"). reflexivity. }
  assert (version (parseChangelog changelogNew) ≠ []) as Hne.
  { vm_compute. discriminate. }
  split; [exact Hwf|]. split; [exact Hne|]. split; [reflexivity|].
  exact (proj2 (merge_writes_entry_verbatim notesOverview
                  (parseChangelog changelogNew) Hwf Hne eq_refl)).
Defined.

(** X16.  Without the Overview mark anywhere in the release notes, and
    with some visible text in them, the merged document is the entry's
    [full] text, one blank line, and the old document, cleaned of
    duplicate headers and of whitespace at its end.  When the old
    document has no duplicate header and does not end in whitespace, it
    follows unchanged. *)
Theorem merge_prepends_without_overview d e :
  Release_wf e → version e ≠ [] →
  includes d (version e) = false →
  includes d OVERVIEW_MARK = false →
  ¬ blank d →
  merge d e = full e ++ LF :: LF :: trimEnd (removeDuplicateHeaders d)
  ∧ (NoDup (headerKeys d) → trimEnd d = d →
     merge d e = full e ++ LF :: LF :: d).
Proof.
  intros Hwf Hne Hinc Hov Hnb.
  destruct (wf_full e Hwf Hne) as (Ht & Hf & _).
  assert (merge d e
          = full e ++ LF :: LF :: trimEnd (removeDuplicateHeaders d)) as Hm.
  { rewrite merge_absent by done.
    assert (includes (removeDuplicateHeaders d) OVERVIEW_MARK = false) as ->.
    { apply Is_true_false. intros H.
      apply removeDuplicateHeaders_includes in H;
        [by rewrite Hov in H|].
      apply (bool_decide_unpack (LF ∉ OVERVIEW_MARK)). vm_compute. exact I. }
    pose proof (trim_around [] (full e)
      (LF :: LF :: removeDuplicateHeaders d) Ht Hf) as H.
    simpl in H. rewrite H. f_equal.
    apply (trimEnd_app_ne [LF; LF]).
    intros Hb%trimEnd_nil_blank. by apply Hnb, removeDuplicateHeaders_blank. }
  split; [done|]. intros Hnd Hend.
  by rewrite Hm, removeDuplicateHeaders_fixed, Hend.
Qed.

Lemma merge_prepends_without_overview_witness :
  includes notesPlain (version (parseChangelog changelogNew)) = false
  ∧ includes notesPlain OVERVIEW_MARK = false
  ∧ merge notesPlain (parseChangelog changelogNew)
    = doc ["## [2.0.0]"; "New notes"; ""; "## [1.0.0]"; "Old notes"].
Proof.
  split; [reflexivity|]. split; [reflexivity|].
  assert (Release_wf (parseChangelog changelogNew)) as Hwf.
  { split; [reflexivity|]. exists (lit "New notes"). reflexivity. }
  assert (version (parseChangelog changelogNew) ≠ []) as Hne.
  { vm_compute. discriminate. }
  assert (¬ blank notesPlain) as Hnb.
  { intros [H _]%blank_cons. vm_compute in H. exact H. }
  destruct (merge_prepends_without_overview notesPlain
              (parseChangelog changelogNew) Hwf Hne eq_refl eq_refl Hnb)
    as [_ Hm].
  apply Hm.
  - vm_compute. repeat constructor. apply not_elem_of_nil.
  - reflexivity.
Defined.

(** X17.  After a merge cycle into release notes that do not begin with
    whitespace and do not contain the new entry's header, exactly one
    version-header line of the merged document has the new header as its
    trimmed text: the new section is there once. *)
Theorem merge_adds_header_once d c :
  trimStart d = d →
  includes d (version (parseChangelog c)) = false →
  headerCount (version (parseChangelog c)) (merge d (parseChangelog c))
  = 1%nat.
Proof.
  intros Hd Hinc. rewrite headerCount_merge by done.
  rewrite decide_True by done.
  unfold headerCount. rewrite headerCountIn_zero; [done|].
  intros l Hl Hh Hk. apply includes_line_trim in Hl.
  rewrite Hk in Hl. by rewrite Hinc in Hl.
Qed.

Lemma merge_adds_header_once_witness :
  trimStart notesDuplicated = notesDuplicated
  ∧ includes notesDuplicated (version (parseChangelog changelogNew)) = false
  ∧ headerCount (version (parseChangelog changelogNew))
      (merge notesDuplicated (parseChangelog changelogNew)) = 1%nat.
Proof.
  split; [reflexivity|]. split; [reflexivity|].
  apply (merge_adds_header_once notesDuplicated changelogNew); reflexivity.
Defined.

(** ** Where the entry is inserted *)

Section placement_props.
Implicit Types (d : jsstring) (e : Release) (st : ScanState)
  (pre fm content rest : list jsstring).

Lemma scanLoop_overview i pre ov content rest st :
  inFrontmatter st = false → overviewFound st = false →
  Forall ordinary pre → startsWith ov OVERVIEW_MARK →
  Forall (λ l, ordinary l ∧ ¬ isVersionHeader l) content →
  (rest = [] ∨ ∃ h r, rest = h :: r ∧ isVersionHeader h) →
  insertIndex (scanLoop i (pre ++ ov :: content ++ rest) st)
  = match content with
    | [] => (i + length pre)%nat
    | _ => (i + length pre + 1 + length content)%nat
    end.
Proof.
  intros Hf Ho Hpre Hov Hcontent Hrest.
  rewrite scanLoop_before by done. simpl.
  rewrite bool_decide_eq_false_2 by by apply overview_not_fence.
  rewrite Hf. simpl. rewrite (Is_true_true_1 _ Hov).
  rewrite scanLoop_after by done. simpl.
  destruct content; simpl; lia.
Qed.

(** A front-matter block before the Overview is passed over, whatever
    its lines are. *)
Lemma scanLoop_frontmatter i f1 fm f2 rest st :
  inFrontmatter st = false → overviewFound st = false →
  trim f1 = FRONTMATTER_FENCE → trim f2 = FRONTMATTER_FENCE →
  Forall (λ l, trim l ≠ FRONTMATTER_FENCE) fm →
  scanLoop i (f1 :: fm ++ f2 :: rest) st
  = scanLoop (i + 2 + length fm) rest st.
Proof.
  intros Hf Ho H1 H2 Hfm. destruct st as [b o oc ix]. simpl in Hf, Ho.
  subst b o. simpl. rewrite bool_decide_eq_true_2 by done. simpl.
  assert (∀ j, scanLoop j (fm ++ f2 :: rest)
                 {| inFrontmatter := true; overviewFound := false;
                    overviewContent := oc; insertIndex := ix |}
               = scanLoop (j + 1 + length fm) rest
                   {| inFrontmatter := false; overviewFound := false;
                      overviewContent := oc; insertIndex := ix |}) as Hin.
  { induction Hfm as [|l fm Hl _ IH]; intros j; simpl.
    - rewrite bool_decide_eq_true_2 by done. simpl. f_equal. lia.
    - rewrite bool_decide_eq_false_2 by done. simpl.
      rewrite IH. f_equal. lia. }
  rewrite Hin. f_equal. lia.
Qed.
End placement_props.

Ltac solve_lines :=
  repeat constructor;
  vm_compute; try tauto; try (intros H; discriminate H).

(** X18.  When no line of the document is a front-matter fence or starts
    with the Overview mark, [insertReleaseIntoDocs] puts the entry on top:
    the result is the entry's [full] text, a blank line and the document,
    trimmed, as in the branch of the script for release notes without an
    Overview. *)
Theorem insertReleaseIntoDocs_without_overview_line d e :
  Forall ordinary (split d) →
  insertReleaseIntoDocs d e = trim (full e ++ LF :: LF :: d).
Proof.
  intros Hd. unfold insertReleaseIntoDocs.
  pose proof (scanLoop_before 0 (split d) []
    {| inFrontmatter := false; overviewFound := false;
       overviewContent := []; insertIndex := 0 |} eq_refl eq_refl Hd) as H.
  rewrite app_nil_r in H. rewrite H. simpl.
  rewrite drop_0, join_split. reflexivity.
Qed.

Lemma insertReleaseIntoDocs_without_overview_line_witness :
  Forall ordinary (split notesInlineOverview)
  ∧ includes notesInlineOverview OVERVIEW_MARK = true
  ∧ insertReleaseIntoDocs notesInlineOverview (parseChangelog changelogNew)
    = doc ["## [2.0.0]"; "New notes"; ""; "# Notes";
           "See the ## Overview elsewhere"; "## [1.0.0]"; "Old notes"].
Proof.
  assert (Forall ordinary (split notesInlineOverview)) as Hd by solve_lines.
  split; [exact Hd|]. split; [reflexivity|].
  exact (insertReleaseIntoDocs_without_overview_line notesInlineOverview
           (parseChangelog changelogNew) Hd).
Defined.

(** X19.  In a document without front matter whose Overview heading is
    followed by lines that are not version headers, the entry is inserted
    after those lines and before what follows them, the first version
    header or the end of the document, between two blank lines. *)
Theorem insertReleaseIntoDocs_after_overview d e pre ov content rest :
  split d = pre ++ ov :: content ++ rest →
  Forall ordinary pre → startsWith ov OVERVIEW_MARK →
  Forall (λ l, ordinary l ∧ ¬ isVersionHeader l) content →
  content ≠ [] →
  (rest = [] ∨ ∃ h r, rest = h :: r ∧ isVersionHeader h) →
  insertReleaseIntoDocs d e
  = trim (join (pre ++ ov :: content) ++ LF :: LF :: full e
          ++ LF :: LF :: join rest).
Proof.
  intros Hd Hpre Hov Hcontent Hne Hrest.
  rewrite (insertReleaseIntoDocs_overview d e pre ov content rest) by done.
  by destruct content.
Qed.

Lemma insertReleaseIntoDocs_after_overview_witness :
  split notesOverview
  = [] ++ lit "## Overview" :: [lit "Some text"]
       ++ [lit "## [1.0.0]"; lit "Old notes"]
  ∧ insertReleaseIntoDocs notesOverview (parseChangelog changelogNew)
    = trim (join ([] ++ lit "## Overview" :: [lit "Some text"])
            ++ LF :: LF :: full (parseChangelog changelogNew)
            ++ LF :: LF :: join [lit "## [1.0.0]"; lit "Old notes"]).
Proof.
  split; [reflexivity|].
  apply (insertReleaseIntoDocs_after_overview notesOverview
           (parseChangelog changelogNew) [] (lit "## Overview")
           [lit "Some text"] [lit "## [1.0.0]"; lit "Old notes"]).
  - reflexivity.
  - constructor.
  - vm_compute. exact I.
  - solve_lines.
  - discriminate.
  - right. exists (lit "## [1.0.0]"), [lit "Old notes"].
    split; [reflexivity|vm_compute; exact I].
Defined.

(** X20.  A front-matter block at the top of the document, between two
    fence lines, is passed over when the Overview is looked for, whatever
    its lines start with; the entry goes after the lines that follow the
    Overview heading below the block. *)
Theorem insertReleaseIntoDocs_skips_frontmatter d e f1 fm f2 pre ov
    content rest :
  split d = f1 :: fm ++ f2 :: pre ++ ov :: content ++ rest →
  trim f1 = FRONTMATTER_FENCE → trim f2 = FRONTMATTER_FENCE →
  Forall (λ l, trim l ≠ FRONTMATTER_FENCE) fm →
  Forall ordinary pre → startsWith ov OVERVIEW_MARK →
  Forall (λ l, ordinary l ∧ ¬ isVersionHeader l) content →
  content ≠ [] →
  (rest = [] ∨ ∃ h r, rest = h :: r ∧ isVersionHeader h) →
  insertReleaseIntoDocs d e
  = trim (join (f1 :: fm ++ f2 :: pre ++ ov :: content)
          ++ LF :: LF :: full e ++ LF :: LF :: join rest).
Proof.
  intros Hd H1 H2 Hfm Hpre Hov Hcontent Hne Hrest.
  unfold insertReleaseIntoDocs. rewrite Hd.
  rewrite scanLoop_frontmatter, scanLoop_overview by done.
  destruct content as [|l content]; [done|].
  assert (f1 :: fm ++ f2 :: pre ++ ov :: (l :: content) ++ rest
          = (f1 :: fm ++ f2 :: pre ++ ov :: l :: content) ++ rest) as ->.
  { simpl. f_equal. rewrite <- !app_assoc. simpl. f_equal. f_equal.
    by rewrite <- app_assoc. }
  assert ((0 + 2 + length fm + length pre + 1 + length (l :: content))%nat
          = length (f1 :: fm ++ f2 :: pre ++ ov :: l :: content)) as ->.
  { simpl. rewrite !length_app. simpl. rewrite length_app. simpl. lia. }
  by rewrite take_app_length, drop_app_length.
Qed.

Lemma insertReleaseIntoDocs_skips_frontmatter_witness :
  split notesFrontmatter
  = lit "---" :: [lit "title: Release notes"; lit "## Overview of the page"]
      ++ lit "---" :: [lit "# Release notes"] ++ lit "## Overview"
      :: [lit "Some text"; []] ++ [lit "## [1.0.0]"; lit "Old notes"]
  ∧ insertReleaseIntoDocs notesFrontmatter (parseChangelog changelogNew)
    = doc ["---"; "title: Release notes"; "## Overview of the page"; "---";
           "# Release notes"; "## Overview"; "Some text"; ""; "";
           "## [2.0.0]"; "New notes"; ""; "## [1.0.0]"; "Old notes"].
Proof.
  split; [reflexivity|].
  etrans.
  - apply (insertReleaseIntoDocs_skips_frontmatter notesFrontmatter
             (parseChangelog changelogNew) (lit "---")
             [lit "title: Release notes"; lit "## Overview of the page"]
             (lit "---") [lit "# Release notes"] (lit "## Overview")
             [lit "Some text"; []] [lit "## [1.0.0]"; lit "Old notes"]).
    + reflexivity.
    + reflexivity.
    + reflexivity.
    + solve_lines.
    + solve_lines.
    + vm_compute. exact I.
    + solve_lines.
    + discriminate.
    + right. exists (lit "## [1.0.0]"), [lit "Old notes"].
      split; [reflexivity|vm_compute; exact I].
  - vm_compute. reflexivity.
Defined.

(** X21.  In a document without front matter whose Overview heading is
    directly followed by a version header, or ends the document, the
    entry is inserted before the Overview heading. *)
Theorem insertReleaseIntoDocs_bare_overview d e pre ov rest :
  split d = pre ++ ov :: rest →
  Forall ordinary pre → startsWith ov OVERVIEW_MARK →
  (rest = [] ∨ ∃ h r, rest = h :: r ∧ isVersionHeader h) →
  insertReleaseIntoDocs d e
  = trim (join pre ++ LF :: LF :: full e ++ LF :: LF :: join (ov :: rest)).
Proof.
  intros Hd Hpre Hov Hrest.
  by rewrite (insertReleaseIntoDocs_overview d e pre ov [] rest).
Qed.

Lemma insertReleaseIntoDocs_bare_overview_witness :
  split notesOverviewBare
  = [] ++ lit "## Overview" :: [lit "## [1.0.0]"; lit "Old notes"]
  ∧ insertReleaseIntoDocs notesOverviewBare (parseChangelog changelogNew)
    = doc ["## [2.0.0]"; "New notes"; "";
           "## Overview"; "## [1.0.0]"; "Old notes"].
Proof.
  split; [reflexivity|].
  etrans.
  - apply (insertReleaseIntoDocs_bare_overview notesOverviewBare
             (parseChangelog changelogNew) [] (lit "## Overview")
             [lit "## [1.0.0]"; lit "Old notes"]).
    + reflexivity.
    + constructor.
    + vm_compute. exact I.
    + right. exists (lit "## [1.0.0]"), [lit "Old notes"].
      split; [reflexivity|vm_compute; exact I].
  - vm_compute. reflexivity.
Defined.
